(** * Edward2: MADE degree/mask generation and the tracer stack

    A shallow embedding of [edward2/tensorflow/layers/made.py]
    ([create_degrees], [create_masks], [make_masked_constraint]) and of the
    tracer stack exercised by [edward2/trace_test.py], with the properties
    the specification states about them. *)

From Stdlib Require Import ZArith String Floats.SpecFloat.
From stdpp Require Import base tactics option list numbers strings sorting.

Local Open Scope Z_scope.

(** ** Python exceptions and fallible computations *)

Inductive exception :=
  | ValueError (msg : string)
  | IndexError (msg : string)
  | UnboundLocalError (msg : string)
  | InvalidArgumentError (msg : string)
  | NotImplementedError.

Inductive result (A : Type) :=
  | Ok (a : A)
  | Raise (e : exception).
Arguments Ok {A} a.
Arguments Raise {A} e.

#[global] Instance result_ret : MRet result := @Ok.
#[global] Instance result_bind : MBind result := λ A B f m,
  match m with
  | Ok a => f a
  | Raise e => Raise e
  end.
#[global] Instance result_fmap : FMap result := λ A B f m,
  match m with
  | Ok a => Ok (f a)
  | Raise e => Raise e
  end.

(** ** The NumPy primitives the module uses, on one-dimensional integer arrays *)

Module np.

(** [np.arange(start, stop)]: empty when [stop <= start]. *)
Definition arange (start stop : Z) : list Z := seqZ start (stop - start).

(** [np.flip(a, 0)]. *)
Definition flip (a : list Z) : list Z := reverse a.

(** [np.sort(a)]: the array in ascending order. *)
Definition sort (a : list Z) : list Z := merge_sort Z.le a.

(** [a != b] with NumPy broadcasting of two one-dimensional arrays.  When the
    lengths differ and neither is 1 the shapes do not broadcast; the NumPy
    releases contemporary with the module then answer the scalar [True]
    (later ones raise [ValueError] at once).  The scalar is kept here as a
    one-element array, which [all] treats alike. *)
Definition not_equal (a b : list Z) : list bool :=
  if decide (length a = length b) then zip_with (λ x y, negb (x =? y)) a b
  else match a, b with
       | [x], _ => (λ y, negb (x =? y)) <$> b
       | _, [y] => (λ x, negb (x =? y)) <$> a
       | _, _ => [true]
       end.

(** [np.all(a)]: true on the empty array. *)
Definition all (a : list bool) : bool := forallb id a.

(** [np.min(a)]: fails on a zero-size array. *)
Definition min (a : list Z) : result Z :=
  match a with
  | [] => Raise (ValueError "zero-size array to reduction operation minimum which has no identity")
  | x :: a' => Ok (foldl Z.min x a')
  end.

(** The state of [np.random]: an endless supply of raw draws and a cursor.
    Every bounded draw reduces one raw draw into the requested range, so
    each stream stands for one run of the generator and every value in
    range is the outcome of some stream. *)
Record RandomState := mkRandomState { stream : nat → Z; cursor : nat }.

Definition next_raw (rs : RandomState) : Z * RandomState :=
  (stream rs (cursor rs), mkRandomState (stream rs) (S (cursor rs))).

(** A draw from the half-open interval [low, high); callers ensure
    [low < high]. *)
Definition draw (low high : Z) (rs : RandomState) : Z * RandomState :=
  let '(r, rs') := next_raw rs in (low + r `mod` (high - low), rs').

Fixpoint draws (n : nat) (low high : Z) (rs : RandomState)
  : list Z * RandomState :=
  match n with
  | O => ([], rs)
  | S n' =>
      let '(x, rs1) := draw low high rs in
      let '(xs, rs2) := draws n' low high rs1 in
      (x :: xs, rs2)
  end.

(** [np.random.randint(low, high, size)]. *)
Definition random_randint (low high size : Z) (rs : RandomState)
  : result (list Z * RandomState) :=
  if size <? 0 then Raise (ValueError "negative dimensions are not allowed")
  else if high <=? low then Raise (ValueError "low >= high")
  else Ok (draws (Z.to_nat size) low high rs).

(** [x[i], x[j] = x[j], x[i]]. *)
Definition swap (x : list Z) (i j : nat) : list Z :=
  match x !! i, x !! j with
  | Some a, Some b => <[i := b]> (<[j := a]> x)
  | _, _ => x
  end.

(** The loop of [np.random.shuffle]: for [i] from [n-1] down to 1, draw
    [j] in [0, i] and exchange positions [i] and [j]. *)
Fixpoint shuffle_from (i : nat) (x : list Z) (rs : RandomState)
  : list Z * RandomState :=
  match i with
  | O => (x, rs)
  | S i' =>
      let '(j, rs') := draw 0 (Z.of_nat i + 1) rs in
      shuffle_from i' (swap x i (Z.to_nat j)) rs'
  end.

Definition random_shuffle (x : list Z) (rs : RandomState)
  : list Z * RandomState :=
  shuffle_from (length x - 1) x rs.

End np.

(** ** [create_degrees] *)

(** The [input_order] argument: a string, or an array of an explicit order. *)
Inductive order :=
  | OrderName (name : string)
  | OrderArray (a : list Z).

Definition in_names (s : string) (names : list string) : bool :=
  existsb (String.eqb s) names.

(** Lines 170-181: the degrees of the input units. *)
Definition input_degrees_of (input_dim : Z) (input_order : order)
    (rs : np.RandomState) : result (list Z * np.RandomState) :=
  match input_order with
  | OrderName name =>
      let input_degrees := np.arange 1 (input_dim + 1) in
      if String.eqb name "right-to-left" then Ok (np.flip input_degrees, rs)
      else if String.eqb name "random" then Ok (np.random_shuffle input_degrees rs)
      else Ok (input_degrees, rs)
  | OrderArray a =>
      if np.all (np.not_equal (np.sort a) (np.arange 1 (input_dim + 1)))
      then Raise (ValueError "invalid input order")
      else Ok (a, rs)
  end.

(** Lines 189-190: the round-robin degree of hidden unit [k]. *)
Definition left_to_right_degree (input_dim k : Z) : Z :=
  k `mod` Z.max 1 (input_dim - 1) + Z.min 1 (input_dim - 1).

(** Lines 183-191: one degree vector per hidden layer, appended to [degrees];
    [degrees[-1]] is the vector of the previous layer. *)
Fixpoint hidden_degrees_loop (input_dim : Z) (hidden_order : string)
    (hidden_dims : list Z) (degrees : list (list Z)) (rs : np.RandomState)
    : result (list (list Z) * np.RandomState) :=
  match hidden_dims with
  | [] => Ok (degrees, rs)
  | units :: hidden_dims' =>
      if String.eqb hidden_order "random" then
        match last degrees with
        | None => Raise (IndexError "list index out of range")
        | Some prev =>
            match np.min prev with
            | Raise e => Raise e
            | Ok m =>
                let min_prev_degree := Z.min m (input_dim - 1) in
                match np.random_randint min_prev_degree input_dim units rs with
                | Raise e => Raise e
                | Ok (hidden_degrees, rs') =>
                    hidden_degrees_loop input_dim hidden_order hidden_dims'
                      (degrees ++ [hidden_degrees]) rs'
                end
            end
        end
      else if String.eqb hidden_order "left-to-right" then
        let hidden_degrees :=
          left_to_right_degree input_dim <$> np.arange 0 units in
        hidden_degrees_loop input_dim hidden_order hidden_dims'
          (degrees ++ [hidden_degrees]) rs
      else Raise (UnboundLocalError "hidden_degrees")
  end.

Definition create_degrees (input_dim : Z) (hidden_dims : list Z)
    (input_order : order) (hidden_order : string) (rs : np.RandomState)
    : result (list (list Z) * np.RandomState) :=
  if match input_order with
     | OrderName name =>
         negb (in_names name ["random"; "left-to-right"; "right-to-left"]%string)
     | OrderArray _ => false
     end
  then Raise (ValueError "Input order is not valid.")
  else if negb (in_names hidden_order ["random"; "left-to-right"]%string)
  then Raise (ValueError "Hidden order is not valid.")
  else
    match input_degrees_of input_dim input_order rs with
    | Raise e => Raise e
    | Ok (input_degrees, rs') =>
        hidden_degrees_loop input_dim hidden_order hidden_dims
          ([] ++ [input_degrees]) rs'
    end.

(** ** Two-dimensional tensors *)

(** A rank-2 array with its static shape; [rows] holds [dim0] rows of [dim1]
    entries each. *)
Record Tensor (A : Type) := mkTensor {
  dim0 : nat;
  dim1 : nat;
  rows : list (list A)
}.
Arguments mkTensor {A} dim0 dim1 rows.
Arguments dim0 {A} t.
Arguments dim1 {A} t.
Arguments rows {A} t.

Definition shape {A} (t : Tensor A) : nat * nat := (dim0 t, dim1 t).

Definition wf_tensor {A} (t : Tensor A) : Prop :=
  length (rows t) = dim0 t ∧ Forall (λ r, length r = dim1 t) (rows t).

(** [t[i, j]]. *)
Definition entry {A} (t : Tensor A) (i j : nat) : option A :=
  rows t !! i ≫= λ r, r !! j.

Definition tensor_map {A B} (f : A → B) (t : Tensor A) : Tensor B :=
  mkTensor (dim0 t) (dim1 t) (fmap (M:=list) (fmap (M:=list) f) (rows t)).

(** [a[:, np.newaxis] <op> b] for one-dimensional [a] and [b]: the comparison
    broadcasts to shape [(len(a), len(b))]. *)
Definition outer_compare (op : Z → Z → bool) (a b : list Z) : Tensor bool :=
  mkTensor (length a) (length b) ((λ x, op x <$> b) <$> a).

(** ** IEEE binary32, the element type of the masks and of the weights *)

Module f32.
Definition prec : Z := 24.
Definition emax : Z := 128.
Definition zero : spec_float := S754_zero false.
Definition one : spec_float := S754_finite false 8388608 (-23).
(** A finite value below the smallest normal number of the format. *)
Definition is_subnormal (x : spec_float) : bool :=
  match x with
  | S754_finite _ m _ => Z.pos (digits2_pos m) <? prec
  | _ => false
  end.
(** Flush-to-zero: a subnormal value becomes the zero of its sign. *)
Definition flush (x : spec_float) : spec_float :=
  match x with
  | S754_finite s _ _ => if is_subnormal x then S754_zero s else x
  | _ => x
  end.
(** The float32 product as TensorFlow's kernels compute it: the IEEE 754
    product, with subnormal operands read as zero and a subnormal result
    flushed to zero. *)
Definition mul (a b : spec_float) : spec_float :=
  flush (SFmul prec emax (flush a) (flush b)).
(** The values a binary32 variable can hold. *)
Definition valid (x : spec_float) : bool := valid_binary prec emax x.
Definition is_zero (x : spec_float) : bool :=
  match x with S754_zero _ => true | _ => false end.
Definition is_finite (x : spec_float) : bool :=
  match x with S754_zero _ | S754_finite _ _ _ => true | _ => false end.
(** [tf.cast] of a boolean to [tf.float32]. *)
Definition of_bool (b : bool) : spec_float := if b then one else zero.
(** The integer a float holds when truncated towards zero ([tf.cast] to an
    integer type); 0 for infinities and NaN. *)
Definition to_Z (x : spec_float) : Z :=
  match x with
  | S754_finite s m e =>
      let a := if 0 <=? e then Z.pos m * 2 ^ e else Z.pos m / 2 ^ (- e) in
      if s then - a else a
  | _ => 0
  end.
End f32.

Module tf.

(** [tf.cast(t, tf.float32)] of a boolean array. *)
Definition cast_float32 (t : Tensor bool) : Tensor spec_float :=
  tensor_map f32.of_bool t.

Definition identity {A} (x : A) : A := x.

(** The extent two broadcast dimensions agree on, when they do. *)
Definition broadcast_dim (n m : nat) : option nat :=
  if decide (n = m) then Some n
  else if decide (n = 1%nat) then Some m
  else if decide (m = 1%nat) then Some n
  else None.

(** Pairing along one axis, repeating the operand whose extent is 1. *)
Definition broadcast_with {A B C} (f : A → B → C)
    (xs : list A) (ys : list B) : list C :=
  match xs, ys with
  | [x], _ => f x <$> ys
  | _, [y] => (λ x, f x y) <$> xs
  | _, _ => zip_with f xs ys
  end.

(** [a * b] on rank-2 float32 tensors, elementwise with broadcasting. *)
Definition multiply (a b : Tensor spec_float) : result (Tensor spec_float) :=
  match broadcast_dim (dim0 a) (dim0 b), broadcast_dim (dim1 a) (dim1 b) with
  | Some r, Some c =>
      Ok (mkTensor r c (broadcast_with (broadcast_with f32.mul) (rows a) (rows b)))
  | _, _ => Raise (InvalidArgumentError "Incompatible shapes")
  end.

End tf.

(** ** [create_masks] *)

(** Lines 216-225: the masks of a list of degree vectors. *)
Definition masks_of_degrees (degrees : list (list Z))
    : result (list (Tensor spec_float)) :=
  let masks :=
    (λ '(input_degrees, output_degrees),
       tf.cast_float32 (outer_compare Z.leb input_degrees output_degrees))
    <$> zip (take (length degrees - 1) degrees) (drop 1 degrees) in
  match last degrees, head degrees with
  | Some degrees_last, Some degrees_first =>
      let mask := tf.cast_float32 (outer_compare Z.ltb degrees_last degrees_first) in
      Ok (masks ++ [mask])
  | _, _ => Raise (IndexError "list index out of range")
  end.

Definition create_masks (input_dim : Z) (hidden_dims : list Z)
    (input_order : order) (hidden_order : string) (rs : np.RandomState)
    : result (list (Tensor spec_float) * np.RandomState) :=
  match create_degrees input_dim hidden_dims input_order hidden_order rs with
  | Raise e => Raise e
  | Ok (degrees, rs') =>
      match masks_of_degrees degrees with
      | Raise e => Raise e
      | Ok masks => Ok (masks, rs')
      end
  end.

(** ** [make_masked_constraint] *)

Definition make_masked_constraint (mask : Tensor spec_float)
    : Tensor spec_float → result (Tensor spec_float) :=
  let constraint := tf.identity in
  λ x, tf.multiply mask (constraint x).

(** ** Composed connectivity: the product of the masks as integer matrices *)

Definition dot (u v : list Z) : Z := foldr Z.add 0 (zip_with Z.mul u v).

Definition column (b : Tensor Z) (j : nat) : list Z :=
  (λ r, default 0 (r !! j)) <$> rows b.

Definition matmul (a b : Tensor Z) : result (Tensor Z) :=
  if decide (dim1 a = dim0 b) then
    Ok (mkTensor (dim0 a) (dim1 b)
          ((λ r, (λ j, dot r (column b j)) <$> seq 0 (dim1 b)) <$> rows a))
  else Raise (InvalidArgumentError "Matrix size-incompatible").

(** The product [m0 · m1 · ... · mL] of a non-empty list of matrices. *)
Definition matmul_chain (ms : list (Tensor Z)) : result (Tensor Z) :=
  match ms with
  | [] => Raise (IndexError "list index out of range")
  | m :: ms' => foldl (λ acc b, acc ≫= λ a, matmul a b) (Ok m) ms'
  end.

Definition connectivity (masks : list (Tensor spec_float)) : result (Tensor Z) :=
  matmul_chain (tensor_map f32.to_Z <$> masks).

(** ** The tracer stack *)

Module trace.

(** What a traceable factory is called with: positional and keyword
    arguments. *)
Record call_args := mkArgs {
  fargs : list Z;
  fkwargs : list (string * Z)
}.

(** A factory of stochastic objects, as the tests use it: a function of its
    arguments that returns a value or raises. *)
Definition factory : Type := call_args → result Z.

(** Modelled from the spec: the code that runs under the tracer stack, which
    lives in the [edward2] package outside the given sources (only
    [trace_test.py], its caller, is present).  [Trace h body] is
    [with ed.trace(h): body]; [Traceable f a] is the call of [ed.traceable(f)] on [a];
    [Call f a] is the plain call of [f] on [a]; a handler is a function of the
    raw factory and its arguments. *)
Inductive code :=
  | Return (v : Z)
  | Throw (e : exception)
  | Bind (c : code) (k : Z → code)
  | Call (f : factory) (a : call_args)
  | Traceable (f : factory) (a : call_args)
  | Trace (h : factory → call_args → code) (body : code).

Definition tracer : Type := factory → call_args → code.

(** Modelled from the spec: the process-wide stack of handlers, innermost
    (most recently entered) first. *)
Definition stack : Type := list tracer.

(** Modelled from the spec: the no-op identity handler that stands for an
    empty stack. *)
Definition identity_tracer : tracer := λ f a, Call f a.

(** Modelled from the spec: querying the current top handler reads the
    stack's top, or the identity handler if the stack is empty, without
    mutation. *)
Definition get_next_tracer (st : stack) : tracer :=
  match st with
  | h :: _ => h
  | [] => identity_tracer
  end.

(** Modelled from the spec: the execution of code under a tracer stack.
    Entering a trace scope pushes the handler; leaving it, normally or
    through an error, pops exactly one entry.  A traceable call on a
    non-empty stack hides the top handler, invokes it with the raw factory
    and the arguments, and restores it when the call returns or raises.
    The result is [None] when [fuel] does not suffice. *)
Fixpoint exec (fuel : nat) (c : code) (st : stack)
  : option (result Z * stack) :=
  match fuel with
  | O => None
  | S fuel' =>
      match c with
      | Return v => Some (Ok v, st)
      | Throw e => Some (Raise e, st)
      | Bind c1 k =>
          match exec fuel' c1 st with
          | Some (Ok v, st1) => exec fuel' (k v) st1
          | Some (Raise e, st1) => Some (Raise e, st1)
          | None => None
          end
      | Call f a => Some (f a, st)
      | Traceable f a =>
          match st with
          | [] => Some (f a, st)
          | h :: st' =>
              match exec fuel' (h f a) st' with
              | Some (r, st1) => Some (r, h :: st1)
              | None => None
              end
          end
      | Trace h body =>
          match exec fuel' body (h :: st) with
          | Some (r, st1) => Some (r, tail st1)
          | None => None
          end
      end
  end.

(** The scenario of [TraceTest.testTraceException]. *)
Definition f_raising : factory := λ _, Raise NotImplementedError.
Definition forwarding_tracer : tracer := λ f a, Call f a.
Definition no_args : call_args := mkArgs [] [].

End trace.

(** ** Sample inputs *)

Definition sample_rs : np.RandomState :=
  np.mkRandomState (λ n, 7 * Z.of_nat n + 3) 0.

(** ** Valid inputs *)

(** A valid [input_order]: one of the three names, or an explicit permutation
    of [1..input_dim]. *)
Definition valid_input_order (input_dim : Z) (input_order : order) : Prop :=
  match input_order with
  | OrderName name =>
      name = "random"%string ∨ name = "left-to-right"%string
      ∨ name = "right-to-left"%string
  | OrderArray a => a ≡ₚ np.arange 1 (input_dim + 1)
  end.

Definition valid_hidden_order (hidden_order : string) : Prop :=
  hidden_order = "random"%string ∨ hidden_order = "left-to-right"%string.

(** A valid input of [create_degrees] and [create_masks]: a positive number of
    inputs, positive hidden layer sizes and valid orders. *)
Definition valid_input (input_dim : Z) (hidden_dims : list Z)
    (input_order : order) (hidden_order : string) : Prop :=
  1 ≤ input_dim ∧ Forall (λ units, 1 ≤ units) hidden_dims
  ∧ valid_input_order input_dim input_order ∧ valid_hidden_order hidden_order.

(** ** Masks and weights *)

(** A 0/1 mask: every entry is the float32 0 or the float32 1. *)
Definition is_mask (mask : Tensor spec_float) : Prop :=
  Forall (Forall (λ v, v = f32.zero ∨ v = f32.one)) (rows mask).

(** A float32 weight matrix: every entry is a value of the format. *)
Definition float32_tensor (x : Tensor spec_float) : Prop :=
  Forall (Forall (λ v, f32.valid v = true)) (rows x).

(** ** Connectivity *)

(** The masks between the consecutive vectors of [d :: ds], by recursion on
    the list; the comprehension over [zip(degrees[:-1], degrees[1:])] in
    [masks_of_degrees] builds the same list ([masks_of_degrees_cons]). *)
Fixpoint consecutive_masks (d : list Z) (ds : list (list Z))
  : list (Tensor spec_float) :=
  match ds with
  | [] => []
  | d' :: ds' =>
      tf.cast_float32 (outer_compare Z.leb d d') :: consecutive_masks d' ds'
  end.

(** An integer matrix [p] from the units of [source] to the units of [target]
    connects only units whose degrees are related by [R]: a nonzero entry
    [(i, j)] requires [R source[i] target[j]]. *)
Definition connects (R : Z → Z → Prop) (source target : list Z) (p : Tensor Z)
  : Prop :=
  ∀ i j v, entry p i j = Some v → v ≠ 0 →
    ∃ x y, source !! i = Some x ∧ target !! j = Some y ∧ R x y.

(** ** Rank-3 tensors: [tf.newaxis], [tf.tile] and [tf.reshape] *)

(** A rank-3 array with its static shape; [cells] holds [extent0] planes of
    [extent1] lines of [extent2] entries each. *)
Record Tensor3 (A : Type) := mkTensor3 {
  extent0 : nat;
  extent1 : nat;
  extent2 : nat;
  cells : list (list (list A))
}.
Arguments mkTensor3 {A} extent0 extent1 extent2 cells.
Arguments extent0 {A} t.
Arguments extent1 {A} t.
Arguments extent2 {A} t.
Arguments cells {A} t.

(** [mask[:, tf.newaxis, :]]: shape [(r, c)] becomes [(r, 1, c)]. *)
Definition newaxis_1 {A} (m : Tensor A) : Tensor3 A :=
  mkTensor3 (dim0 m) 1 (dim1 m) ((λ r : list A, [r]) <$> rows m).

(** [mask[..., tf.newaxis]]: shape [(r, c)] becomes [(r, c, 1)]. *)
Definition newaxis_2 {A} (m : Tensor A) : Tensor3 A :=
  mkTensor3 (dim0 m) (dim1 m) 1 ((λ r : list A, (λ x, [x]) <$> r) <$> rows m).

(** The whole of [l], [n] times over. *)
Definition tile_list {A} (n : nat) (l : list A) : list A :=
  concat (replicate n l).

(** [tf.tile(t, [m0, m1, m2])]: each axis repeated as a whole; a negative
    multiple is an error. *)
Definition tf_tile {A} (t : Tensor3 A) (m0 m1 m2 : Z) : result (Tensor3 A) :=
  if (m0 <? 0) || (m1 <? 0) || (m2 <? 0)
  then Raise (InvalidArgumentError "Expected multiples >= 0")
  else
    let n0 := Z.to_nat m0 in
    let n1 := Z.to_nat m1 in
    let n2 := Z.to_nat m2 in
    Ok (mkTensor3 (extent0 t * n0) (extent1 t * n1) (extent2 t * n2)
          (tile_list n0
             ((λ plane : list (list A),
                 tile_list n1 ((λ line, tile_list n2 line) <$> plane))
              <$> cells t))).

(** [tf.reshape(t, [r, c])] of a rank-3 tensor: the entries in row-major
    order, cut into [r] rows of [c]; the number of entries must agree. *)
Definition tf_reshape {A} (t : Tensor3 A) (r c : Z) : result (Tensor A) :=
  if (r <? 0) || (c <? 0)
  then Raise (InvalidArgumentError "Size must be non-negative")
  else if decide (Z.to_nat r * Z.to_nat c = extent0 t * extent1 t * extent2 t)%nat
  then
    let flat := concat (concat (cells t)) in
    Ok (mkTensor (Z.to_nat r) (Z.to_nat c)
          ((λ i, take (Z.to_nat c) (drop (i * Z.to_nat c) flat))
           <$> seq 0 (Z.to_nat r)))
  else Raise (InvalidArgumentError "Input to reshape does not have the requested number of values").

(** ** [make_masked_initializer] *)

(** The initializer the source wraps, [tf.keras.initializers.GlorotUniform()],
    is taken as a parameter: a function of the requested shape and dtype. *)
Definition make_masked_initializer
    (initializer : nat * nat → option string → Tensor spec_float)
    (mask : Tensor spec_float)
    : nat * nat → option string → result (Tensor spec_float) :=
  λ shape dtype, tf.multiply mask (initializer shape dtype).

(** ** [MADE.build] *)

Module made.

(** The attributes [MADE.__init__] stores. *)
Record config := mkConfig {
  units : Z;
  hidden_dims : list Z;
  input_order : order;
  hidden_order : string;
  activation : option string;
  use_bias : bool
}.

(** What [build] adds to [self.network]: [tf.keras.layers.Reshape] with its
    target shape, or [tf.keras.layers.Dense] with its number of units, the
    mask its kernel initializer and kernel constraint are made from, its
    activation and its bias flag. *)
Inductive layer :=
  | Reshape (target_shape : list Z)
  | Dense (units : Z) (kernel_mask : Tensor spec_float)
      (activation : option string) (use_bias : bool).

(** Lines 98-100: the input mask, each row repeated [channels] times. *)
Definition tile_input_mask (mask : Tensor spec_float) (channels : nat)
    : result (Tensor spec_float) :=
  match tf_tile (newaxis_1 mask) 1 (Z.of_nat channels) 1 with
  | Raise e => Raise e
  | Ok t =>
      tf_reshape t (Z.of_nat (extent0 t) * Z.of_nat channels) (Z.of_nat (extent2 t))
  end.

(** Lines 125-126: the output mask, each entry repeated [units] times. *)
Definition tile_output_mask (mask : Tensor spec_float) (units : Z)
    : result (Tensor spec_float) :=
  match tf_tile (newaxis_2 mask) 1 1 units with
  | Raise e => Raise e
  | Ok t => tf_reshape t (Z.of_nat (extent0 t)) (Z.of_nat (extent1 t) * units)
  end.

(** [tf.keras.layers.Dense(units, ...)]: the constructor rejects a number of
    units that is not positive. *)
Definition invalid_units : exception :=
  ValueError "Received an invalid value for `units`, expected a positive integer.".

Definition dense (units : Z) (kernel_mask : Tensor spec_float)
    (activation : option string) (use_bias : bool) : result layer :=
  if units <=? 0 then Raise invalid_units
  else Ok (Dense units kernel_mask activation use_bias).

(** Lines 111-118: the hidden-to-hidden layers, for [l] in [ls]. *)
Fixpoint hidden_layers (self : config) (masks : list (Tensor spec_float))
    (ls : list nat) : result (list layer) :=
  match ls with
  | [] => Ok []
  | l :: ls' =>
      match hidden_dims self !! l, masks !! l with
      | Some units_l, Some mask_l =>
          match dense units_l mask_l (activation self) (use_bias self) with
          | Raise e => Raise e
          | Ok layer =>
              match hidden_layers self masks ls' with
              | Raise e => Raise e
              | Ok layers => Ok (layer :: layers)
              end
          end
      | _, _ => Raise (IndexError "list index out of range")
      end
  end.

(** Lines 78-135.  [length] and [channels] are the two last dimensions of the
    input shape, [None] when undefined.  The result is the list of layers
    added to the network, in order. *)
Definition build (self : config) (length channels : option nat)
    (rs : np.RandomState) : result (list layer * np.RandomState) :=
  match length, channels with
  | Some length, Some channels =>
      match create_masks (Z.of_nat length) (hidden_dims self) (input_order self)
              (hidden_order self) rs with
      | Raise e => Raise e
      | Ok (masks, rs') =>
          match head masks with
          | None => Raise (IndexError "list index out of range")
          | Some mask0 =>
              match tile_input_mask mask0 channels with
              | Raise e => Raise e
              | Ok mask =>
                  match (match hidden_dims self with
                         | [] => Ok []
                         | units0 :: _ =>
                             (λ layer, [layer])
                             <$> dense units0 mask (activation self) (use_bias self)
                         end) with
                  | Raise e => Raise e
                  | Ok input_to_hidden =>
                      match hidden_layers self masks
                              (seq 1 (List.length (hidden_dims self) - 1)) with
                      | Raise e => Raise e
                      | Ok hidden_to_hidden =>
                          match (match hidden_dims self with
                                 | [] => Some mask
                                 | _ :: _ => last masks
                                 end) with
                          | None => Raise (IndexError "list index out of range")
                          | Some mask_last =>
                              match tile_output_mask mask_last (units self) with
                              | Raise e => Raise e
                              | Ok mask_out =>
                                  match dense (Z.of_nat length * units self)
                                          mask_out None (use_bias self) with
                                  | Raise e => Raise e
                                  | Ok output =>
                                      Ok ([Reshape [Z.of_nat length * Z.of_nat channels]]
                                          ++ input_to_hidden
                                          ++ hidden_to_hidden
                                          ++ [output;
                                              Reshape [Z.of_nat length; units self]],
                                          rs')
                                  end
                              end
                          end
                      end
                  end
              end
          end
      end
  | _, _ =>
      Raise (ValueError "The two last dimensions of the inputs to `MADE` should be defined. Found `None`.")
  end.

(** The masks of the [Dense] layers of a network, in order. *)
Definition kernel_masks (layers : list layer) : list (Tensor spec_float) :=
  omap (λ l, match l with
             | Dense _ mask _ _ => Some mask
             | Reshape _ => None
             end) layers.

End made.

(** ** Hidden layer sizes the ['random'] hidden order can work with *)

(** Every size but the last at least 1, the last at least 0. *)
Fixpoint random_sizes_ok (hidden_dims : list Z) : bool :=
  match hidden_dims with
  | [] => true
  | [units] => 0 <=? units
  | units :: hidden_dims' => (1 <=? units) && random_sizes_ok hidden_dims'
  end.

(** * Properties *)

(** ** NumPy primitives *)

Lemma length_arange start stop :
  length (np.arange start stop) = Z.to_nat (stop - start).
Proof. apply length_seqZ. Qed.

Lemma lookup_arange start stop i x :
  np.arange start stop !! i = Some x ↔ x = start + Z.of_nat i ∧ start + Z.of_nat i < stop.
Proof. unfold np.arange. rewrite lookup_seqZ. intuition lia. Qed.

Lemma Sorted_seqZ m n : Sorted Z.le (seqZ m n).
Proof.
  destruct (Z_le_gt_dec n 0) as [Hn|Hn].
  { rewrite seqZ_nil by lia. constructor. }
  rewrite <- (Z2Nat.id n) by lia.
  generalize (Z.to_nat n) as k. clear. intros k. revert m.
  induction k as [|k IH]; intros m.
  - rewrite seqZ_nil by lia. constructor.
  - rewrite seqZ_cons by lia. constructor.
    + replace (Z.pred (Z.of_nat (S k))) with (Z.of_nat k) by lia. apply IH.
    + replace (Z.pred (Z.of_nat (S k))) with (Z.of_nat k) by lia.
      destruct k as [|k].
      * rewrite seqZ_nil by lia. constructor.
      * rewrite seqZ_cons by lia. constructor. lia.
Qed.

Lemma sort_permutation_of_arange a start stop :
  a ≡ₚ np.arange start stop → np.sort a = np.arange start stop.
Proof.
  intros Hperm. unfold np.sort, np.arange in *.
  apply (Sorted_unique Z.le).
  - apply Sorted_merge_sort. intros x y. lia.
  - apply Sorted_seqZ.
  - by rewrite merge_sort_Permutation.
Qed.

Lemma all_not_equal_self (a : list Z) :
  a ≠ [] → np.all (np.not_equal a a) = false.
Proof.
  destruct a as [|x a]; [done|]. intros _.
  unfold np.not_equal. rewrite decide_True by done.
  simpl. by rewrite Z.eqb_refl.
Qed.

Lemma length_swap x i j : length (np.swap x i j) = length x.
Proof.
  unfold np.swap. destruct (x !! i), (x !! j); try done.
  by rewrite !length_insert.
Qed.

Lemma length_shuffle_from i x rs :
  length (np.shuffle_from i x rs).1 = length x.
Proof.
  revert x rs. induction i as [|i IH]; intros x rs; [done|].
  cbn [np.shuffle_from]. destruct (np.draw _ _ _) as [j rs1].
  by rewrite IH, length_swap.
Qed.

Lemma length_random_shuffle x rs :
  length (np.random_shuffle x rs).1 = length x.
Proof. apply length_shuffle_from. Qed.

(** ** Input degrees *)

Lemma in_names_input_order name :
  in_names name ["random"; "left-to-right"; "right-to-left"]%string = true
  ↔ name = "random"%string ∨ name = "left-to-right"%string
    ∨ name = "right-to-left"%string.
Proof.
  unfold in_names. cbn [existsb]. rewrite !orb_true_iff, !String.eqb_eq.
  intuition discriminate.
Qed.

Lemma in_names_hidden_order name :
  in_names name ["random"; "left-to-right"]%string = true
  ↔ valid_hidden_order name.
Proof.
  unfold in_names, valid_hidden_order. cbn [existsb].
  rewrite !orb_true_iff, !String.eqb_eq. intuition discriminate.
Qed.

(** A valid input order is accepted, and yields one degree per input. *)
Lemma input_degrees_of_valid input_dim input_order rs :
  1 ≤ input_dim → valid_input_order input_dim input_order →
  ∃ input_degrees rs',
    input_degrees_of input_dim input_order rs = Ok (input_degrees, rs')
    ∧ length input_degrees = Z.to_nat input_dim.
Proof.
  intros Hdim Hvalid. destruct input_order as [name|a]; simpl in *.
  - destruct (String.eqb name "right-to-left").
    { eexists _, _. split; [done|].
      unfold np.flip. rewrite length_reverse, length_arange. lia. }
    destruct (String.eqb name "random").
    { destruct (np.random_shuffle _ rs) as [d rs1] eqn:Hsh.
      eexists _, _. split; [done|].
      change d with (d, rs1).1. rewrite <- Hsh, length_random_shuffle.
      rewrite length_arange. lia. }
    eexists _, _. split; [done|]. rewrite length_arange. lia.
  - rewrite (sort_permutation_of_arange _ _ _ Hvalid).
    rewrite all_not_equal_self.
    + eexists _, _. split; [done|].
      rewrite Hvalid, length_arange. lia.
    + intros Hnil. apply (f_equal length) in Hnil.
      rewrite length_arange in Hnil. simpl in Hnil. lia.
Qed.

(** ** The loop over the hidden layers *)

Lemma hidden_degrees_loop_left_to_right input_dim hidden_dims degrees rs :
  hidden_degrees_loop input_dim "left-to-right" hidden_dims degrees rs
  = Ok (degrees ++ ((λ units, left_to_right_degree input_dim <$> np.arange 0 units)
                      <$> hidden_dims), rs).
Proof.
  revert degrees. induction hidden_dims as [|units hidden_dims IH]; intros degrees.
  - simpl. by rewrite app_nil_r.
  - cbn [hidden_degrees_loop]. change (String.eqb "left-to-right" "random") with false.
    change (String.eqb "left-to-right" "left-to-right") with true. cbv iota.
    rewrite IH, <- app_assoc. done.
Qed.

(** The loop only appends: one vector per hidden layer. *)
Lemma hidden_degrees_loop_extends input_dim hidden_order hidden_dims degrees rs out rs' :
  hidden_degrees_loop input_dim hidden_order hidden_dims degrees rs = Ok (out, rs') →
  ∃ hidden, out = degrees ++ hidden ∧ length hidden = length hidden_dims.
Proof.
  revert degrees rs. induction hidden_dims as [|units hidden_dims IH];
    intros degrees rs Hloop.
  - simpl in Hloop. injection Hloop as <- <-. exists []. by rewrite app_nil_r.
  - cbn [hidden_degrees_loop] in Hloop.
    destruct (String.eqb hidden_order "random").
    + destruct (last degrees) as [prev|]; [|done].
      destruct (np.min prev) as [m|]; [|done].
      destruct (np.random_randint _ _ _ _) as [[h rs1]|]; [|done].
      apply IH in Hloop as (hidden & -> & Hlen).
      exists (h :: hidden). rewrite <- app_assoc. simpl. auto.
    + destruct (String.eqb hidden_order "left-to-right"); [|done].
      apply IH in Hloop as (hidden & -> & Hlen).
      eexists (_ :: hidden). rewrite <- app_assoc. simpl. auto.
Qed.

(** [create_degrees] succeeds exactly when the orders are accepted, the input
    degrees are produced and the loop over the hidden layers succeeds. *)
Lemma create_degrees_Ok input_dim hidden_dims input_order hidden_order rs degrees rs' :
  create_degrees input_dim hidden_dims input_order hidden_order rs = Ok (degrees, rs')
  ↔ valid_hidden_order hidden_order
    ∧ ∃ input_degrees rs1,
        input_degrees_of input_dim input_order rs = Ok (input_degrees, rs1)
        ∧ hidden_degrees_loop input_dim hidden_order hidden_dims [input_degrees] rs1
          = Ok (degrees, rs')
        ∧ match input_order with
          | OrderName name =>
              name = "random"%string ∨ name = "left-to-right"%string
              ∨ name = "right-to-left"%string
          | OrderArray _ => True
          end.
Proof.
  unfold create_degrees. rewrite <- in_names_hidden_order.
  destruct (in_names hidden_order _) eqn:Hho; cbn [negb].
  - destruct input_order as [name|a]; cbv beta iota.
    + setoid_rewrite <- in_names_input_order.
      destruct (in_names name _) eqn:Hio; cbn [negb].
      * destruct (input_degrees_of _ _ _) as [[d rs1]|e].
        -- split; [intros H; split; [done|]; eauto 6|].
           intros (_ & d' & rs1' & [= <- <-] & H & _). done.
        -- split; [done|]. intros (_ & ? & ? & ? & _). done.
      * split; [done|]. intros (_ & ? & ? & ? & ? & ?). done.
    + destruct (input_degrees_of _ _ _) as [[d rs1]|e].
      * split; [intros H; split; [done|]; eauto 6|].
        intros (_ & d' & rs1' & [= <- <-] & H & _). done.
      * split; [done|]. intros (_ & ? & ? & ? & _). done.
  - split.
    + destruct input_order as [name|a]; [destruct (negb _)|]; done.
    + intros [? _]. done.
Qed.

(** The first vector returned is the vector of input degrees. *)
Lemma create_degrees_head input_dim hidden_dims input_order hidden_order rs degrees rs' :
  create_degrees input_dim hidden_dims input_order hidden_order rs = Ok (degrees, rs') →
  ∃ input_degrees rs1,
    input_degrees_of input_dim input_order rs = Ok (input_degrees, rs1)
    ∧ head degrees = Some input_degrees
    ∧ length degrees = S (length hidden_dims).
Proof.
  rewrite create_degrees_Ok. intros (_ & d & rs1 & Hin & Hloop & _).
  apply hidden_degrees_loop_extends in Hloop as (hidden & -> & Hlen).
  exists d, rs1. simpl. auto.
Qed.

(** ** Round-robin hidden degrees *)

Lemma left_to_right_degree_bounds input_dim k :
  2 ≤ input_dim → 0 ≤ k →
  left_to_right_degree input_dim k = k `mod` (input_dim - 1) + 1
  ∧ 1 ≤ left_to_right_degree input_dim k ≤ input_dim - 1.
Proof.
  intros Hdim Hk. unfold left_to_right_degree.
  rewrite Z.max_r, Z.min_l by lia.
  pose proof (Z.mod_pos_bound k (input_dim - 1)). lia.
Qed.

Lemma left_to_right_degree_one k : left_to_right_degree 1 k = 0.
Proof. unfold left_to_right_degree. simpl. by rewrite Z.mod_1_r. Qed.

(** ** Explicit input orders (claims C1 and C6) *)

Lemma all_not_equal_same_length (a b : list Z) :
  length a = length b →
  np.all (np.not_equal a b) = true
  ↔ ∀ i x y, a !! i = Some x → b !! i = Some y → x ≠ y.
Proof.
  intros Hlen. unfold np.not_equal. rewrite decide_True by done.
  revert b Hlen. induction a as [|x a IH]; intros [|y b] Hlen; try done.
  simpl. rewrite andb_true_iff, IH by (simpl in Hlen; lia). split.
  - intros [Hxy Hall] [|i] x' y'; simpl.
    + intros [= <-] [= <-]. unfold id in Hxy. apply negb_true_iff, Z.eqb_neq in Hxy. done.
    + apply Hall.
  - intros Hall. split.
    + unfold id. apply negb_true_iff, Z.eqb_neq. by apply (Hall 0%nat).
    + intros i. apply (Hall (S i)).
Qed.

(** What the check of an explicit order of the right length does: it raises
    exactly when every sorted entry differs from the degree of its position. *)
Lemma explicit_order_rejected_iff input_dim a rs :
  length a = Z.to_nat input_dim →
  input_degrees_of input_dim (OrderArray a) rs = Raise (ValueError "invalid input order")
  ↔ ∀ i x, np.sort a !! i = Some x → x ≠ 1 + Z.of_nat i.
Proof.
  intros Hlen. simpl.
  assert (length (np.sort a) = length (np.arange 1 (input_dim + 1))) as Hlen'.
  { unfold np.sort. rewrite merge_sort_Permutation, length_arange. lia. }
  pose proof (all_not_equal_same_length _ _ Hlen') as Hall.
  destruct (np.all _).
  - split; [intros _|done]. intros i x Hx.
    destruct (lookup_lt_is_Some_2 (np.arange 1 (input_dim + 1)) i) as [y Hy].
    { rewrite <- Hlen'. by apply lookup_lt_Some in Hx. }
    pose proof Hy as [-> _]%lookup_arange.
    by apply (proj1 Hall eq_refl i).
  - split; [done|]. intros Hne. exfalso.
    assert (false = true); [|done]. apply Hall. intros i x y Hx Hy.
    apply lookup_arange in Hy as [-> _]. by apply Hne.
Qed.

(** C1 (the code departs from the claim).  The claim: every explicit
    [input_order] that is not exactly a permutation of [1..input_dim] makes
    [create_degrees] raise.  The check raises only when every sorted entry
    differs from its position, so [[1; 1; 3]], which is not a permutation of
    [1..3], is accepted and returned as the input degrees. *)
Theorem create_degrees_accepts_repeated_degree :
  ¬ [1; 1; 3] ≡ₚ np.arange 1 (3 + 1)
  ∧ ∀ rs, create_degrees 3 [] (OrderArray [1; 1; 3]) "left-to-right" rs
          = Ok ([[1; 1; 3]], rs).
Proof.
  split; [|done].
  intros Hperm. assert (2 ∈ [1; 1; 3]) as Hin.
  { rewrite Hperm. unfold np.arange. rewrite elem_of_seqZ. lia. }
  rewrite !elem_of_cons in Hin. rewrite elem_of_nil in Hin. lia.
Qed.

(** C6 (the code departs from the claim).  The claim: for every [input_dim]
    an explicit valid permutation of [1..input_dim] is returned verbatim.
    For [input_dim = 0] the only permutation is the empty array, and the
    check, true on an empty comparison, raises. *)
Theorem create_degrees_rejects_empty_order :
  [] ≡ₚ np.arange 1 (0 + 1)
  ∧ ∀ rs, create_degrees 0 [] (OrderArray []) "left-to-right" rs
          = Raise (ValueError "invalid input order").
Proof. split; done. Qed.

(** The named branch of the same function accepts [input_dim = 0]. *)
Lemma create_degrees_left_to_right_zero rs :
  create_degrees 0 [] (OrderName "left-to-right") "left-to-right" rs = Ok ([[]], rs).
Proof. done. Qed.

(** What holds of the first vector: the identity for ['left-to-right'] and its
    reverse for ['right-to-left'], for every [input_dim]; an explicit
    permutation verbatim, for every [input_dim >= 1]. *)
Lemma create_degrees_first_vector input_dim hidden_dims input_order hidden_order
    rs degrees rs' :
  create_degrees input_dim hidden_dims input_order hidden_order rs = Ok (degrees, rs') →
  match input_order with
  | OrderName name =>
      (name = "left-to-right"%string → head degrees = Some (np.arange 1 (input_dim + 1)))
      ∧ (name = "right-to-left"%string
         → head degrees = Some (reverse (np.arange 1 (input_dim + 1))))
  | OrderArray a => head degrees = Some a
  end.
Proof.
  intros Hcd. apply create_degrees_head in Hcd as (d & rs1 & Hin & Hhead & _).
  destruct input_order as [name|a]; simpl in Hin.
  - split; intros ->; simpl in Hin; by injection Hin as <- <-.
  - destruct (np.all _); [done|]. by injection Hin as <- <-.
Qed.

Lemma explicit_permutation_accepted input_dim a rs :
  1 ≤ input_dim → a ≡ₚ np.arange 1 (input_dim + 1) →
  input_degrees_of input_dim (OrderArray a) rs = Ok (a, rs).
Proof.
  intros Hdim Hperm. simpl.
  rewrite (sort_permutation_of_arange _ _ _ Hperm), all_not_equal_self; [done|].
  intros Hnil. apply (f_equal length) in Hnil.
  rewrite length_arange in Hnil. simpl in Hnil. lia.
Qed.

(** ** Random draws *)

Lemma draws_spec n low high rs :
  length (np.draws n low high rs).1 = n
  ∧ (low < high → Forall (λ x, low ≤ x ≤ high - 1) (np.draws n low high rs).1).
Proof.
  revert rs. induction n as [|n IH]; intros rs; [by split; [|constructor]|].
  cbn [np.draws]. unfold np.draw. cbn [np.next_raw].
  destruct (np.draws n low high _) as [xs rs2] eqn:Hxs.
  specialize (IH (np.mkRandomState (np.stream rs) (S (np.cursor rs)))).
  rewrite Hxs in IH. destruct IH as [Hlen Hran]. simpl in *. split; [lia|].
  intros Hlt. constructor; [|auto].
  pose proof (Z.mod_pos_bound (np.stream rs (np.cursor rs)) (high - low)). lia.
Qed.

Lemma random_randint_Ok low high size rs xs rs' :
  np.random_randint low high size rs = Ok (xs, rs')
  ↔ 0 ≤ size ∧ low < high ∧ np.draws (Z.to_nat size) low high rs = (xs, rs').
Proof.
  unfold np.random_randint.
  destruct (Z.ltb_spec size 0); [split; [done|lia]|].
  destruct (Z.leb_spec high low); [split; [done|lia]|].
  split; [intros [= ?]|intros (_ & _ & ->)]; auto.
Qed.

Lemma min_Ok a m :
  np.min a = Ok m → m ∈ a ∧ Forall (λ x, m ≤ x) a.
Proof.
  destruct a as [|x a]; [done|]. intros [= <-].
  revert x. induction a as [|y a IH]; intros x; simpl.
  - split; [by apply list_elem_of_singleton|]. constructor; [lia|constructor].
  - destruct (IH (Z.min x y)) as [Hin Hall]. split.
    + rewrite elem_of_cons in Hin. rewrite !elem_of_cons.
      destruct Hin as [Heq|Hin]; [|auto].
      rewrite Heq. destruct (Z.min_spec x y) as [[_ ->]|[_ ->]]; auto.
    + apply Forall_cons in Hall as [Hx Hall].
      constructor; [lia|]. constructor; [lia|done].
Qed.

Lemma min_nonempty a : a ≠ [] → ∃ m, np.min a = Ok m.
Proof. destruct a; [done|]. intros _. simpl. eauto. Qed.

(** ** Random hidden degrees *)

(** Every vector the loop appends lies between the capped minimum of the
    vector before it and [input_dim - 1]. *)
Lemma hidden_degrees_loop_random input_dim hidden_dims degrees rs out rs' :
  hidden_degrees_loop input_dim "random" hidden_dims degrees rs = Ok (out, rs') →
  ∀ l prev cur,
    (length degrees ≤ S l)%nat → out !! l = Some prev → out !! S l = Some cur →
    ∃ m, np.min prev = Ok m
         ∧ Forall (λ d, Z.min m (input_dim - 1) ≤ d ≤ input_dim - 1) cur.
Proof.
  revert degrees rs. induction hidden_dims as [|units hidden_dims IH];
    intros degrees rs Hloop l prev cur Hl Hprev Hcur.
  { simpl in Hloop. injection Hloop as <- <-.
    apply lookup_lt_Some in Hcur. lia. }
  cbn [hidden_degrees_loop] in Hloop.
  change (String.eqb "random" "random") with true in Hloop. cbv iota in Hloop.
  destruct (last degrees) as [p|] eqn:Hlast; [|done].
  destruct (np.min p) as [m|] eqn:Hmin; [|done].
  destruct (np.random_randint _ _ _ _) as [[h rs1]|] eqn:Hrand; [|done].
  destruct (decide (S l = length degrees)) as [Heq|Hne].
  - apply hidden_degrees_loop_extends in Hloop as (hidden & -> & _).
    rewrite <- app_assoc in Hprev, Hcur.
    rewrite lookup_app_l in Hprev by lia.
    rewrite lookup_app_r in Hcur by lia.
    replace (S l - length degrees)%nat with 0%nat in Hcur by lia.
    simpl in Hcur. injection Hcur as <-.
    rewrite last_lookup in Hlast.
    replace (Nat.pred (length degrees)) with l in Hlast by lia.
    rewrite Hlast in Hprev. injection Hprev as <-.
    exists m. split; [done|].
    apply random_randint_Ok in Hrand as (_ & Hlt & Hdraws).
    pose proof (draws_spec (Z.to_nat units) (Z.min m (input_dim - 1)) input_dim rs)
      as [_ Hran].
    rewrite Hdraws in Hran. apply Hran, Hlt.
  - apply (IH _ _ Hloop l prev cur); [|done..].
    rewrite length_app. simpl. lia.
Qed.

(** On positive layer sizes the loop succeeds, whatever the hidden order. *)
Lemma hidden_degrees_loop_valid input_dim hidden_order hidden_dims degrees rs prev :
  valid_hidden_order hidden_order →
  Forall (λ units, 1 ≤ units) hidden_dims →
  last degrees = Some prev → prev ≠ [] →
  ∃ out rs',
    hidden_degrees_loop input_dim hidden_order hidden_dims degrees rs = Ok (out, rs').
Proof.
  intros [->| ->]; [|intros; rewrite hidden_degrees_loop_left_to_right; eauto].
  revert degrees rs prev.
  induction hidden_dims as [|units hidden_dims IH];
    intros degrees rs prev Hpos Hlast Hne; [simpl; eauto|].
  apply Forall_cons in Hpos as [Hunits Hpos].
  cbn [hidden_degrees_loop].
  change (String.eqb "random" "random") with true. cbv iota.
  rewrite Hlast. destruct (min_nonempty prev Hne) as [m ->].
  destruct (np.draws (Z.to_nat units) (Z.min m (input_dim - 1)) input_dim rs)
    as [h rs1] eqn:Hdraws.
  assert (np.random_randint (Z.min m (input_dim - 1)) input_dim units rs = Ok (h, rs1))
    as -> by (apply random_randint_Ok; split_and!; [lia|lia|done]).
  apply (IH _ _ h Hpos).
  - by rewrite last_snoc.
  - intros ->. pose proof (draws_spec (Z.to_nat units) (Z.min m (input_dim - 1))
      input_dim rs) as [Hlen _].
    rewrite Hdraws in Hlen. simpl in Hlen. lia.
Qed.

(** On a valid input [create_degrees] returns, with one vector for the inputs
    ([input_dim] entries) followed by one per hidden layer. *)
Lemma create_degrees_valid input_dim hidden_dims input_order hidden_order rs :
  valid_input input_dim hidden_dims input_order hidden_order →
  ∃ degrees rs' input_degrees,
    create_degrees input_dim hidden_dims input_order hidden_order rs = Ok (degrees, rs')
    ∧ head degrees = Some input_degrees
    ∧ length input_degrees = Z.to_nat input_dim
    ∧ length degrees = S (length hidden_dims).
Proof.
  intros (Hdim & Hpos & Hio & Hho).
  destruct (input_degrees_of_valid input_dim input_order rs Hdim Hio)
    as (d & rs1 & Hin & Hlen).
  destruct (hidden_degrees_loop_valid input_dim hidden_order hidden_dims [d] rs1 d)
    as (out & rs' & Hloop); [done|done|done| |].
  { intros ->. simpl in Hlen. lia. }
  assert (create_degrees input_dim hidden_dims input_order hidden_order rs
          = Ok (out, rs')) as Hcd.
  { apply create_degrees_Ok. split; [done|]. exists d, rs1. split_and!; [done..|].
    destruct input_order; done. }
  exists out, rs', d. split; [done|].
  apply create_degrees_head in Hcd as (d' & rs1' & Hin' & Hhead & Hlen').
  rewrite Hin in Hin'. injection Hin' as <- <-. done.
Qed.

(** For every [input_dim >= 1] all three parts hold together: on a valid
    input [create_degrees] returns, and its first vector is as described. *)
Lemma create_degrees_first_vector_valid input_dim hidden_dims input_order
    hidden_order rs :
  valid_input input_dim hidden_dims input_order hidden_order →
  ∃ degrees rs',
    create_degrees input_dim hidden_dims input_order hidden_order rs
    = Ok (degrees, rs')
    ∧ match input_order with
      | OrderName name =>
          (name = "left-to-right"%string
           → head degrees = Some (np.arange 1 (input_dim + 1)))
          ∧ (name = "right-to-left"%string
             → head degrees = Some (reverse (np.arange 1 (input_dim + 1))))
      | OrderArray a => head degrees = Some a
      end.
Proof.
  intros Hvalid.
  destruct (create_degrees_valid _ _ _ _ rs Hvalid) as (degrees & rs' & _ & Hcd & _).
  exists degrees, rs'. split; [done|].
  by apply (create_degrees_first_vector _ _ _ _ _ _ _ Hcd).
Qed.

(** ** Hidden degrees (claims C2 and C7) *)

(** C2 (as stated, refuted).  The claim: for [input_dim >= 1] every hidden
    degree of the ['left-to-right'] hidden order lies in
    [1..max(1, input_dim-1)], hence is at least 1.  For [input_dim = 1] and a
    hidden layer of two units the hidden degrees are [[0; 0]]. *)
Lemma hidden_left_to_right_degree_below_one :
  ¬ (1 ≤ 1 →
     ∀ degrees rs',
       create_degrees 1 [2] (OrderName "left-to-right") "left-to-right" sample_rs
       = Ok (degrees, rs') →
       ∀ l hidden, degrees !! S l = Some hidden →
         ∀ d, d ∈ hidden → 1 ≤ d ≤ Z.max 1 (1 - 1)).
Proof.
  intros Hclaim.
  assert (1 ≤ 0 ≤ Z.max 1 (1 - 1)); [|lia].
  apply (Hclaim ltac:(lia) [[1]; [0; 0]] sample_rs eq_refl 0%nat [0; 0] eq_refl).
  apply list_elem_of_here.
Qed.

(** C2 (amended).  For every [input_dim >= 1], every list of hidden layer
    sizes and every valid input order, [create_degrees] with hidden order
    ['left-to-right'] returns, and entry [k] of each hidden degree vector is
    [k mod max(1, input_dim-1) + min(1, input_dim-1)]: for [input_dim >= 2]
    the entries cycle through [1..input_dim-1] and are at least 1; for
    [input_dim = 1] every entry is 0. *)
Theorem hidden_left_to_right_degrees input_dim hidden_dims input_order rs :
  1 ≤ input_dim → valid_input_order input_dim input_order →
  ∃ degrees rs',
    create_degrees input_dim hidden_dims input_order "left-to-right" rs
    = Ok (degrees, rs')
    ∧ ∀ l units, hidden_dims !! l = Some units →
        ∃ hidden,
          degrees !! S l = Some hidden
          ∧ length hidden = Z.to_nat units
          ∧ ∀ k d, hidden !! k = Some d →
              d = Z.of_nat k `mod` Z.max 1 (input_dim - 1) + Z.min 1 (input_dim - 1)
              ∧ (2 ≤ input_dim →
                 d = Z.of_nat k `mod` (input_dim - 1) + 1 ∧ 1 ≤ d ≤ input_dim - 1)
              ∧ (input_dim = 1 → d = 0).
Proof.
  intros Hdim Hio.
  destruct (input_degrees_of_valid input_dim input_order rs Hdim Hio)
    as (d0 & rs1 & Hin & _).
  eexists _, rs1. split.
  { apply create_degrees_Ok. split; [by right|]. exists d0, rs1.
    split_and!; [done|apply hidden_degrees_loop_left_to_right|].
    destruct input_order; done. }
  intros l units Hl. eexists. split_and!.
  - simpl. rewrite list_lookup_fmap, Hl. done.
  - rewrite length_fmap, length_arange. f_equal. lia.
  - intros k d Hk. rewrite list_lookup_fmap in Hk.
    destruct (np.arange 0 units !! k) as [x|] eqn:Hx; [|done].
    apply lookup_arange in Hx as [-> _]. injection Hk as <-.
    rewrite Z.add_0_l. split_and!.
    + done.
    + intros Hdim2. apply left_to_right_degree_bounds; lia.
    + intros ->. apply left_to_right_degree_one.
Qed.

Lemma hidden_left_to_right_degrees_witness :
  1 ≤ 3 ∧ valid_input_order 3 (OrderName "left-to-right")
  ∧ ∃ degrees rs',
      create_degrees 3 [4] (OrderName "left-to-right") "left-to-right" sample_rs
      = Ok (degrees, rs')
      ∧ ∀ l units, [4] !! l = Some units →
          ∃ hidden,
            degrees !! S l = Some hidden
            ∧ length hidden = Z.to_nat units
            ∧ ∀ k d, hidden !! k = Some d →
                d = Z.of_nat k `mod` Z.max 1 (3 - 1) + Z.min 1 (3 - 1)
                ∧ (2 ≤ 3 → d = Z.of_nat k `mod` (3 - 1) + 1 ∧ 1 ≤ d ≤ 3 - 1)
                ∧ (3 = 1 → d = 0).
Proof.
  split; [lia|]. split; [right; left; reflexivity|].
  apply (hidden_left_to_right_degrees 3 [4] (OrderName "left-to-right") sample_rs).
  - lia.
  - right; left; reflexivity.
Defined.

(** C7.  For every valid input with hidden order ['random'],
    [create_degrees] returns, and every entry of each hidden degree vector
    lies in the closed interval from [min(m, input_dim-1)] to [input_dim-1],
    where [m] is the minimum degree of the previous layer. *)
Theorem random_hidden_degrees_in_range input_dim hidden_dims input_order rs :
  valid_input input_dim hidden_dims input_order "random" →
  ∃ degrees rs',
    create_degrees input_dim hidden_dims input_order "random" rs = Ok (degrees, rs')
    ∧ length degrees = S (length hidden_dims)
    ∧ ∀ l prev cur, degrees !! l = Some prev → degrees !! S l = Some cur →
        ∃ m, m ∈ prev ∧ Forall (λ x, m ≤ x) prev
             ∧ Forall (λ d, Z.min m (input_dim - 1) ≤ d ≤ input_dim - 1) cur.
Proof.
  intros Hvalid.
  destruct (create_degrees_valid _ _ _ _ rs Hvalid)
    as (degrees & rs' & d0 & Hcd & _ & _ & Hlen).
  exists degrees, rs'. split_and!; [done..|].
  intros l prev cur Hprev Hcur.
  apply create_degrees_Ok in Hcd as (_ & d & rs1 & _ & Hloop & _).
  destruct (hidden_degrees_loop_random _ _ _ _ _ _ Hloop l prev cur)
    as (m & Hmin & Hrange); [simpl; lia|done..|].
  apply min_Ok in Hmin as [Hin Hle]. eauto.
Qed.

Lemma random_hidden_degrees_in_range_witness :
  valid_input 5 [4; 3] (OrderName "random") "random"
  ∧ ∃ degrees rs',
      create_degrees 5 [4; 3] (OrderName "random") "random" sample_rs
      = Ok (degrees, rs')
      ∧ length degrees = S (length [4; 3])
      ∧ ∀ l prev cur, degrees !! l = Some prev → degrees !! S l = Some cur →
          ∃ m, m ∈ prev ∧ Forall (λ x, m ≤ x) prev
               ∧ Forall (λ d, Z.min m (5 - 1) ≤ d ≤ 5 - 1) cur.
Proof.
  assert (valid_input 5 [4; 3] (OrderName "random") "random") as Hvalid.
  { split; [lia|]. split; [repeat constructor; lia|].
    split; left; reflexivity. }
  split; [exact Hvalid|].
  exact (random_hidden_degrees_in_range 5 [4; 3] (OrderName "random") sample_rs Hvalid).
Defined.

(** ** Masks (claims C3, C4 and C5) *)

Lemma entry_cast_outer op a b i j x y :
  a !! i = Some x → b !! j = Some y →
  entry (tf.cast_float32 (outer_compare op a b)) i j = Some (f32.of_bool (op x y)).
Proof.
  intros Ha Hb. unfold entry, tf.cast_float32, tensor_map, outer_compare. simpl.
  rewrite !list_lookup_fmap, Ha. simpl. by rewrite !list_lookup_fmap, Hb.
Qed.

Lemma shape_cast_outer op a b :
  shape (tf.cast_float32 (outer_compare op a b)) = (length a, length b).
Proof. done. Qed.

Lemma wf_cast_outer op a b : wf_tensor (tf.cast_float32 (outer_compare op a b)).
Proof.
  split; simpl.
  - by rewrite !length_fmap.
  - rewrite !Forall_fmap. apply Forall_forall. intros x _. simpl.
    by rewrite !length_fmap.
Qed.

Lemma masks_of_degrees_lookup degrees masks l source target :
  masks_of_degrees degrees = Ok masks →
  degrees !! l = Some source → degrees !! S l = Some target →
  masks !! l = Some (tf.cast_float32 (outer_compare Z.leb source target)).
Proof.
  unfold masks_of_degrees. intros Hm Hs Ht.
  destruct (last degrees) as [dl|]; [|done].
  destruct (head degrees) as [df|]; [|done].
  injection Hm as <-.
  pose proof (lookup_lt_Some _ _ _ Ht) as Hlt.
  rewrite lookup_app_l.
  2: { rewrite length_fmap, length_zip_with, length_take, length_drop. lia. }
  rewrite list_lookup_fmap, lookup_zip_with, lookup_take_lt by lia.
  rewrite lookup_drop. change (1 + l)%nat with (S l). by rewrite Hs, Ht.
Qed.

Lemma masks_of_degrees_last degrees masks :
  masks_of_degrees degrees = Ok masks →
  ∃ degrees_last degrees_first,
    last degrees = Some degrees_last ∧ head degrees = Some degrees_first
    ∧ last masks
      = Some (tf.cast_float32 (outer_compare Z.ltb degrees_last degrees_first))
    ∧ length masks = length degrees.
Proof.
  unfold masks_of_degrees. intros Hm.
  destruct (last degrees) as [dl|] eqn:Hlast; [|done].
  destruct (head degrees) as [df|] eqn:Hhead; [|done].
  injection Hm as <-. exists dl, df. split_and!; [done..| |].
  - by rewrite last_snoc.
  - rewrite length_app, length_fmap, length_zip_with, length_take, length_drop.
    destruct degrees; [done|]. simpl. lia.
Qed.

Lemma masks_of_degrees_nonempty degrees :
  degrees ≠ [] → ∃ masks, masks_of_degrees degrees = Ok masks.
Proof.
  intros Hne. unfold masks_of_degrees.
  destruct (last degrees) as [dl|] eqn:Hlast.
  - destruct degrees as [|df degrees]; [done|]. simpl. eauto.
  - apply last_None in Hlast. done.
Qed.

Lemma create_masks_Ok input_dim hidden_dims input_order hidden_order rs masks rs' :
  create_masks input_dim hidden_dims input_order hidden_order rs = Ok (masks, rs')
  ↔ ∃ degrees,
      create_degrees input_dim hidden_dims input_order hidden_order rs
      = Ok (degrees, rs')
      ∧ masks_of_degrees degrees = Ok masks.
Proof.
  unfold create_masks.
  destruct (create_degrees _ _ _ _ _) as [[degrees rs1]|e].
  - destruct (masks_of_degrees degrees) as [ms|e] eqn:Hms.
    + split.
      * intros [= <- <-]. eauto.
      * intros (degrees' & [= <- <-] & Hms'). rewrite Hms in Hms'. by injection Hms' as <-.
    + split; [done|]. intros (degrees' & [= <- <-] & Hms'). by rewrite Hms in Hms'.
  - split; [done|]. by intros (? & ? & _).
Qed.

(** On a valid input [create_masks] returns the masks of the degrees that
    [create_degrees] returns. *)
Lemma create_masks_valid input_dim hidden_dims input_order hidden_order rs :
  valid_input input_dim hidden_dims input_order hidden_order →
  ∃ degrees masks rs' input_degrees,
    create_degrees input_dim hidden_dims input_order hidden_order rs
    = Ok (degrees, rs')
    ∧ create_masks input_dim hidden_dims input_order hidden_order rs
      = Ok (masks, rs')
    ∧ masks_of_degrees degrees = Ok masks
    ∧ head degrees = Some input_degrees
    ∧ length input_degrees = Z.to_nat input_dim
    ∧ length degrees = S (length hidden_dims).
Proof.
  intros Hvalid.
  destruct (create_degrees_valid _ _ _ _ rs Hvalid)
    as (degrees & rs' & d0 & Hcd & Hhead & Hlen0 & Hlen).
  destruct (masks_of_degrees_nonempty degrees) as [masks Hms].
  { intros ->. done. }
  exists degrees, masks, rs', d0. split_and!; try done.
  apply create_masks_Ok. eauto.
Qed.

(** C3.  For every valid input, [create_masks] returns; the mask between
    consecutive degree vectors has entry [(i, j)] equal to 1 if
    [source[i] <= target[j]] and 0 otherwise, and the final mask has entry
    [(i, j)] equal to 1 if [last[i] < input[j]] and 0 otherwise. *)
Theorem create_masks_entries input_dim hidden_dims input_order hidden_order rs :
  valid_input input_dim hidden_dims input_order hidden_order →
  ∃ degrees masks rs',
    create_degrees input_dim hidden_dims input_order hidden_order rs
    = Ok (degrees, rs')
    ∧ create_masks input_dim hidden_dims input_order hidden_order rs
      = Ok (masks, rs')
    ∧ (∀ l source target,
         degrees !! l = Some source → degrees !! S l = Some target →
         ∃ mask, masks !! l = Some mask
           ∧ ∀ i j si tj, source !! i = Some si → target !! j = Some tj →
               entry mask i j = Some (if si <=? tj then f32.one else f32.zero))
    ∧ (∃ last_degrees input_degrees mask,
         last degrees = Some last_degrees ∧ head degrees = Some input_degrees
         ∧ last masks = Some mask
         ∧ ∀ i j li dj, last_degrees !! i = Some li → input_degrees !! j = Some dj →
             entry mask i j = Some (if li <? dj then f32.one else f32.zero)).
Proof.
  intros Hvalid.
  destruct (create_masks_valid _ _ _ _ rs Hvalid)
    as (degrees & masks & rs' & d0 & Hcd & Hcm & Hms & _).
  exists degrees, masks, rs'. split_and!; [done..| |].
  - intros l source target Hs Ht. eexists. split.
    + by apply (masks_of_degrees_lookup degrees masks l source target).
    + intros i j si tj Hi Hj. by rewrite (entry_cast_outer _ _ _ _ _ si tj).
  - apply masks_of_degrees_last in Hms as (dl & df & Hlast & Hhead & Hmask & _).
    exists dl, df. eexists. split_and!; [done..|].
    intros i j li dj Hi Hj. by rewrite (entry_cast_outer _ _ _ _ _ li dj).
Qed.

Lemma create_masks_entries_witness :
  valid_input 3 [4] (OrderName "right-to-left") "left-to-right"
  ∧ ∃ degrees masks rs',
      create_degrees 3 [4] (OrderName "right-to-left") "left-to-right" sample_rs
      = Ok (degrees, rs')
      ∧ create_masks 3 [4] (OrderName "right-to-left") "left-to-right" sample_rs
        = Ok (masks, rs')
      ∧ (∀ l source target,
           degrees !! l = Some source → degrees !! S l = Some target →
           ∃ mask, masks !! l = Some mask
             ∧ ∀ i j si tj, source !! i = Some si → target !! j = Some tj →
                 entry mask i j = Some (if si <=? tj then f32.one else f32.zero))
      ∧ (∃ last_degrees input_degrees mask,
           last degrees = Some last_degrees ∧ head degrees = Some input_degrees
           ∧ last masks = Some mask
           ∧ ∀ i j li dj, last_degrees !! i = Some li → input_degrees !! j = Some dj →
               entry mask i j = Some (if li <? dj then f32.one else f32.zero)).
Proof.
  assert (valid_input 3 [4] (OrderName "right-to-left") "left-to-right") as Hvalid.
  { split; [lia|]. split; [repeat constructor; lia|].
    split; [right; right; reflexivity|right; reflexivity]. }
  split; [exact Hvalid|].
  exact (create_masks_entries 3 [4] (OrderName "right-to-left") "left-to-right"
           sample_rs Hvalid).
Defined.

(** C4.  For every valid [input_dim] (and valid orders), with an empty
    [hidden_dims] [create_masks] returns exactly one mask, of shape
    [(input_dim, input_dim)], whose entry [(i, j)] is 1 iff
    [input_degree[i] < input_degree[j]]. *)
Theorem create_masks_no_hidden input_dim input_order hidden_order rs :
  valid_input input_dim [] input_order hidden_order →
  ∃ input_degrees mask rs',
    create_degrees input_dim [] input_order hidden_order rs
    = Ok ([input_degrees], rs')
    ∧ create_masks input_dim [] input_order hidden_order rs = Ok ([mask], rs')
    ∧ wf_tensor mask
    ∧ shape mask = (Z.to_nat input_dim, Z.to_nat input_dim)
    ∧ (∀ i j di dj, input_degrees !! i = Some di → input_degrees !! j = Some dj →
         entry mask i j = Some (if di <? dj then f32.one else f32.zero))
    ∧ (∀ i j di dj, input_degrees !! i = Some di → input_degrees !! j = Some dj →
         entry mask i j = Some f32.one ↔ di < dj).
Proof.
  intros Hvalid.
  destruct (create_masks_valid _ _ _ _ rs Hvalid)
    as (degrees & masks & rs' & d0 & Hcd & Hcm & Hms & Hhead & Hlen0 & Hlen).
  destruct degrees as [|d [|? ?]]; [done| |done].
  simpl in Hhead. injection Hhead as ->.
  unfold masks_of_degrees in Hms. simpl in Hms. injection Hms as <-.
  eexists d0, _, rs'. split_and!; [done|done|apply wf_cast_outer| | |].
  - by rewrite shape_cast_outer, Hlen0.
  - intros i j di dj Hi Hj. by rewrite (entry_cast_outer _ _ _ _ _ di dj).
  - intros i j di dj Hi Hj. rewrite (entry_cast_outer _ _ _ _ _ di dj) by done.
    unfold f32.of_bool. destruct (Z.ltb_spec di dj); split; (done || lia).
Qed.

Lemma create_masks_no_hidden_witness :
  valid_input 3 [] (OrderArray [2; 3; 1]) "left-to-right"
  ∧ ∃ input_degrees mask rs',
      create_degrees 3 [] (OrderArray [2; 3; 1]) "left-to-right" sample_rs
      = Ok ([input_degrees], rs')
      ∧ create_masks 3 [] (OrderArray [2; 3; 1]) "left-to-right" sample_rs
        = Ok ([mask], rs')
      ∧ wf_tensor mask
      ∧ shape mask = (Z.to_nat 3, Z.to_nat 3)
      ∧ (∀ i j di dj, input_degrees !! i = Some di → input_degrees !! j = Some dj →
           entry mask i j = Some (if di <? dj then f32.one else f32.zero))
      ∧ (∀ i j di dj, input_degrees !! i = Some di → input_degrees !! j = Some dj →
           entry mask i j = Some f32.one ↔ di < dj).
Proof.
  assert (valid_input 3 [] (OrderArray [2; 3; 1]) "left-to-right") as Hvalid.
  { split; [lia|]. split; [constructor|]. split; [|right; reflexivity].
    change ([2; 3; 1] ≡ₚ [1; 2; 3]).
    etrans; [apply Permutation_skip, Permutation_swap|]. apply Permutation_swap. }
  split; [exact Hvalid|].
  exact (create_masks_no_hidden 3 (OrderArray [2; 3; 1]) "left-to-right"
           sample_rs Hvalid).
Defined.

(** C5.  For every valid input, [create_masks] returns
    [len(hidden_dims) + 1] masks; the mask at each interior layer boundary
    [l] has shape [(len(degrees[l]), len(degrees[l+1]))] and the final mask
    has shape [(len(degrees[-1]), input_dim)]. *)
Theorem create_masks_shapes input_dim hidden_dims input_order hidden_order rs :
  valid_input input_dim hidden_dims input_order hidden_order →
  ∃ degrees masks rs',
    create_degrees input_dim hidden_dims input_order hidden_order rs
    = Ok (degrees, rs')
    ∧ create_masks input_dim hidden_dims input_order hidden_order rs
      = Ok (masks, rs')
    ∧ length masks = S (length hidden_dims)
    ∧ (∀ l source target,
         degrees !! l = Some source → degrees !! S l = Some target →
         ∃ mask, masks !! l = Some mask ∧ wf_tensor mask
                 ∧ shape mask = (length source, length target))
    ∧ (∃ last_degrees mask,
         last degrees = Some last_degrees ∧ last masks = Some mask
         ∧ wf_tensor mask
         ∧ shape mask = (length last_degrees, Z.to_nat input_dim)).
Proof.
  intros Hvalid.
  destruct (create_masks_valid _ _ _ _ rs Hvalid)
    as (degrees & masks & rs' & d0 & Hcd & Hcm & Hms & Hhead & Hlen0 & Hlen).
  exists degrees, masks, rs'.
  destruct (masks_of_degrees_last _ _ Hms)
    as (dl & df & Hlast & Hhead' & Hmask & Hlenm).
  split_and!; [done|done|congruence| |].
  - intros l source target Hs Ht. eexists. split_and!.
    + by apply (masks_of_degrees_lookup degrees masks l source target).
    + apply wf_cast_outer.
    + apply shape_cast_outer.
  - rewrite Hhead in Hhead'. injection Hhead' as <-.
    exists dl. eexists. split_and!; [done|done|apply wf_cast_outer|].
    by rewrite shape_cast_outer, Hlen0.
Qed.

Lemma create_masks_shapes_witness :
  valid_input 3 [4; 2] (OrderName "random") "random"
  ∧ ∃ degrees masks rs',
      create_degrees 3 [4; 2] (OrderName "random") "random" sample_rs
      = Ok (degrees, rs')
      ∧ create_masks 3 [4; 2] (OrderName "random") "random" sample_rs
        = Ok (masks, rs')
      ∧ length masks = S (length [4; 2])
      ∧ (∀ l source target,
           degrees !! l = Some source → degrees !! S l = Some target →
           ∃ mask, masks !! l = Some mask ∧ wf_tensor mask
                   ∧ shape mask = (length source, length target))
      ∧ (∃ last_degrees mask,
           last degrees = Some last_degrees ∧ last masks = Some mask
           ∧ wf_tensor mask
           ∧ shape mask = (length last_degrees, Z.to_nat 3)).
Proof.
  assert (valid_input 3 [4; 2] (OrderName "random") "random") as Hvalid.
  { split; [lia|]. split; [repeat constructor; lia|].
    split; left; reflexivity. }
  split; [exact Hvalid|].
  exact (create_masks_shapes 3 [4; 2] (OrderName "random") "random" sample_rs Hvalid).
Defined.

(** ** The tracer stack (claim C9) *)

(** More fuel does not change a result. *)
Lemma exec_fuel_mono fuel fuel' c st out :
  (fuel ≤ fuel')%nat →
  trace.exec fuel c st = Some out → trace.exec fuel' c st = Some out.
Proof.
  revert fuel' c st out. induction fuel as [|fuel IH];
    intros fuel' c st out Hle Hexec; [done|].
  destruct fuel' as [|fuel']; [lia|].
  assert (fuel ≤ fuel')%nat as Hle' by lia.
  destruct c as [v|e|c1 k|f a|f a|h body]; cbn [trace.exec] in *; try done.
  - destruct (trace.exec fuel c1 st) as [[[v|e] st1]|] eqn:Hc1; [| |done].
    + rewrite (IH fuel' _ _ _ Hle' Hc1). by apply IH.
    + by rewrite (IH fuel' _ _ _ Hle' Hc1).
  - destruct st as [|h st]; [done|].
    destruct (trace.exec fuel (h f a) st) as [[r st1]|] eqn:Hh; [|done].
    by rewrite (IH fuel' _ _ _ Hle' Hh).
  - destruct (trace.exec fuel body (h :: st)) as [[r st1]|] eqn:Hb; [|done].
    by rewrite (IH fuel' _ _ _ Hle' Hb).
Qed.

(** Stack integrity: whatever code runs, and whether it returns or raises, it
    leaves the tracer stack as it found it. *)
Lemma exec_preserves_stack fuel c st r st' :
  trace.exec fuel c st = Some (r, st') → st' = st.
Proof.
  revert c st r st'. induction fuel as [|fuel IH]; intros c st r st' Hexec; [done|].
  destruct c as [v|e|c1 k|f a|f a|h body]; cbn [trace.exec] in Hexec.
  - by injection Hexec as _ <-.
  - by injection Hexec as _ <-.
  - destruct (trace.exec fuel c1 st) as [[[v|e] st1]|] eqn:Hc1; [| |done].
    + apply IH in Hc1 as ->. by apply IH in Hexec.
    + apply IH in Hc1 as ->. by injection Hexec as _ <-.
  - by injection Hexec as _ <-.
  - destruct st as [|h st]; [by injection Hexec as _ <-|].
    destruct (trace.exec fuel (h f a) st) as [[r1 st1]|] eqn:Hh; [|done].
    apply IH in Hh as ->. by injection Hexec as _ <-.
  - destruct (trace.exec fuel body (h :: st)) as [[r1 st1]|] eqn:Hb; [|done].
    apply IH in Hb as ->. by injection Hexec as _ <-.
Qed.

(** C9.  If the code inside a trace scope that pushed handler [h] (the code
    itself, or a handler it invokes) raises [e], then the scope raises the
    same [e]; leaving the scope pops exactly one entry from the stack the
    body left, the stack is the one before the scope was entered, and so is
    the top handler. *)
Theorem trace_scope_exception fuel fuel' h body st e st1 :
  trace.exec fuel body (h :: st) = Some (Raise e, st1) →
  (fuel < fuel')%nat →
  ∃ st',
    trace.exec fuel' (trace.Trace h body) st = Some (Raise e, st')
    ∧ S (length st') = length st1
    ∧ st' = st
    ∧ trace.get_next_tracer st' = trace.get_next_tracer st.
Proof.
  intros Hbody Hfuel.
  pose proof (exec_preserves_stack _ _ _ _ _ Hbody) as ->.
  exists st. split_and!; [|done..].
  apply (exec_fuel_mono (S fuel)); [lia|].
  cbn [trace.exec]. unfold trace.tracer, trace.stack in *. by rewrite Hbody.
Qed.

Lemma trace_scope_exception_witness :
  trace.exec 1 (trace.Call trace.f_raising trace.no_args) [trace.forwarding_tracer]
  = Some (Raise NotImplementedError, [trace.forwarding_tracer])
  ∧ (1 < 2)%nat
  ∧ ∃ st',
      trace.exec 2
        (trace.Trace trace.forwarding_tracer
           (trace.Call trace.f_raising trace.no_args)) []
      = Some (Raise NotImplementedError, st')
      ∧ S (length st') = length [trace.forwarding_tracer]
      ∧ st' = []
      ∧ trace.get_next_tracer st' = trace.get_next_tracer [].
Proof.
  split; [reflexivity|]. split; [lia|].
  apply (trace_scope_exception 1 2 trace.forwarding_tracer
           (trace.Call trace.f_raising trace.no_args) [] NotImplementedError
           [trace.forwarding_tracer]).
  - reflexivity.
  - lia.
Defined.

(** The same when it is the handler that raises: a traceable call inside the
    scope invokes the handler, which raises. *)
Example trace_scope_handler_raises :
  trace.exec 3
    (trace.Trace (λ _ _, trace.Throw NotImplementedError)
       (trace.Traceable (λ _, Ok 0) trace.no_args)) [trace.forwarding_tracer]
  = Some (Raise NotImplementedError, [trace.forwarding_tracer]).
Proof. reflexivity. Qed.

(** ** IEEE binary32 multiplication by the mask values *)

Lemma digits2_pos_shift m :
  Z.pos (digits2_pos (8388608 * m)) = Z.pos (digits2_pos m) + 23.
Proof. cbv beta iota delta [Pos.mul]. cbn [digits2_pos]. lia. Qed.

Lemma iter_shr_1_23 m :
  SpecFloat.iter_pos shr_1 23 {| shr_m := Z.pos (8388608 * m); shr_r := false; shr_s := false |}
  = {| shr_m := Z.pos m; shr_r := false; shr_s := false |}.
Proof. reflexivity. Qed.

(** The product of the mantissas of 1 and of a canonical [m], shifted back. *)
Lemma shr_fexp_one_mul m e :
  fexp f32.prec f32.emax (Z.pos (digits2_pos m) + e) = e →
  shr_fexp f32.prec f32.emax (Z.pos (8388608 * m)) (-23 + e) loc_Exact
  = ({| shr_m := Z.pos m; shr_r := false; shr_s := false |}, e).
Proof.
  intros Hcanon. unfold shr_fexp. cbn [Zdigits2 shr_record_of_loc].
  rewrite digits2_pos_shift.
  replace (Z.pos (digits2_pos m) + 23 + (-23 + e))
    with (Z.pos (digits2_pos m) + e) by lia.
  rewrite Hcanon. replace (e - (-23 + e)) with 23 by lia.
  cbn [shr]. rewrite iter_shr_1_23. f_equal. lia.
Qed.

Lemma shr_fexp_canonical m e :
  fexp f32.prec f32.emax (Z.pos (digits2_pos m) + e) = e →
  shr_fexp f32.prec f32.emax (Z.pos m) e loc_Exact
  = ({| shr_m := Z.pos m; shr_r := false; shr_s := false |}, e).
Proof.
  intros Hcanon. unfold shr_fexp. cbn [Zdigits2 shr_record_of_loc].
  by rewrite Hcanon, Z.sub_diag.
Qed.

(** 1 is a left unit of the IEEE 754 product on float32 values. *)
Lemma SFmul_one_l x :
  f32.valid x = true → SFmul f32.prec f32.emax f32.one x = x.
Proof.
  destruct x as [s|s| |s m e]; try reflexivity.
  unfold f32.valid, f32.one. cbn [valid_binary]. unfold bounded.
  intros [Hcanon Hmax]%andb_prop.
  unfold canonical_mantissa in Hcanon. apply Z.eqb_eq in Hcanon.
  cbn [SFmul xorb]. unfold binary_round_aux.
  rewrite (shr_fexp_one_mul m e Hcanon).
  cbn [shr_m loc_of_shr_record round_nearest_even].
  rewrite (shr_fexp_canonical m e Hcanon). cbn [shr_m].
  by rewrite Hmax.
Qed.

Lemma flush_valid x : f32.valid x = true → f32.valid (f32.flush x) = true.
Proof.
  destruct x as [s|s| |s m e]; try done.
  intros Hvalid. unfold f32.flush. by destruct (f32.is_subnormal _).
Qed.

Lemma flush_idemp x : f32.flush (f32.flush x) = f32.flush x.
Proof.
  destruct x as [s|s| |s m e]; try done.
  unfold f32.flush.
  destruct (f32.is_subnormal (S754_finite s m e)) eqn:Hsub; [done|].
  by rewrite Hsub.
Qed.

(** Multiplying by 1 flushes a subnormal value and changes no other. *)
Lemma mul_one_l x : f32.valid x = true → f32.mul f32.one x = f32.flush x.
Proof.
  intros Hvalid. unfold f32.mul. change (f32.flush f32.one) with f32.one.
  rewrite SFmul_one_l by (by apply flush_valid). apply flush_idemp.
Qed.

(** 0 times a finite value is a zero; 0 times an infinity or NaN is NaN. *)
Lemma mul_zero_l x :
  f32.mul f32.zero x
  = match x with
    | S754_zero s | S754_finite s _ _ => S754_zero s
    | _ => S754_nan
    end.
Proof.
  destruct x as [s|s| |s m e]; try (by destruct s); try done.
  unfold f32.mul. change (f32.flush f32.zero) with f32.zero.
  unfold f32.flush at 2. destruct (f32.is_subnormal _); by destruct s.
Qed.

Lemma mul_zero_l_finite x :
  f32.is_finite x = true → f32.is_zero (f32.mul f32.zero x) = true.
Proof. rewrite mul_zero_l. by destruct x. Qed.

Lemma mul_zero_l_idemp x :
  f32.mul f32.zero (f32.mul f32.zero x) = f32.mul f32.zero x.
Proof. rewrite !mul_zero_l. by destruct x. Qed.

Lemma mul_mask_value_idemp m x :
  m = f32.zero ∨ m = f32.one → f32.valid x = true →
  f32.mul m (f32.mul m x) = f32.mul m x.
Proof.
  intros [-> | ->] Hvalid; [apply mul_zero_l_idemp|].
  rewrite (mul_one_l x Hvalid), mul_one_l by (by apply flush_valid).
  apply flush_idemp.
Qed.

(** ** Elementwise products of tensors of one shape *)

Lemma broadcast_with_same_length {A B C} (f : A → B → C) xs ys :
  length xs = length ys → tf.broadcast_with f xs ys = zip_with f xs ys.
Proof. destruct xs as [|x [|x' xs]], ys as [|y [|y' ys]]; done. Qed.

Lemma zip_with_broadcast_rows {A B C} (f : A → B → C) c xss yss :
  Forall (λ r, length r = c) xss → Forall (λ r, length r = c) yss →
  zip_with (tf.broadcast_with f) xss yss = zip_with (zip_with f) xss yss.
Proof.
  intros Hx. revert yss. induction Hx as [|xs xss Hxs _ IH]; intros yss Hy; [done|].
  destruct Hy as [|ys yss Hys Hy]; [done|]. simpl.
  rewrite broadcast_with_same_length by congruence. f_equal. by apply IH.
Qed.

Lemma Forall_length_zip_with {A B C} (f : A → B → C) c xss yss :
  Forall (λ r, length r = c) xss → Forall (λ r, length r = c) yss →
  Forall (λ r, length r = c) (zip_with (zip_with f) xss yss).
Proof.
  intros Hx. revert yss. induction Hx as [|xs xss Hxs _ IH]; intros yss Hy;
    [constructor|].
  destruct Hy as [|ys yss Hys Hy]; [constructor|]. simpl. constructor; [|by apply IH].
  rewrite length_zip_with. lia.
Qed.

Lemma zip_with_idemp {A B} (f : A → B → B) (P : A → Prop) (Q : B → Prop) l k :
  (∀ a b, P a → Q b → f a (f a b) = f a b) →
  Forall P l → Forall Q k →
  zip_with f l (zip_with f l k) = zip_with f l k.
Proof.
  intros Hf Hl. revert k. induction Hl as [|a l Ha _ IH]; intros k Hk; [done|].
  destruct Hk as [|b k Hb Hk]; [done|]. simpl. f_equal; auto.
Qed.

Lemma multiply_same_shape a b :
  wf_tensor a → wf_tensor b → shape a = shape b →
  tf.multiply a b
  = Ok (mkTensor (dim0 a) (dim1 a) (zip_with (zip_with f32.mul) (rows a) (rows b))).
Proof.
  intros [Ha0 Ha1] [Hb0 Hb1] [= H0 H1]. unfold tf.multiply, tf.broadcast_dim.
  rewrite <- H0, <- H1, !decide_True by done.
  rewrite broadcast_with_same_length by congruence.
  rewrite (zip_with_broadcast_rows _ (dim1 a)); [done..|]. by rewrite H1.
Qed.

Lemma entry_zip_with {A} (f : A → A → A) r c (a b : Tensor A) i j :
  entry (mkTensor r c (zip_with (zip_with f) (rows a) (rows b))) i j
  = entry a i j ≫= λ u, entry b i j ≫= λ v, Some (f u v).
Proof.
  unfold entry. simpl. rewrite lookup_zip_with.
  destruct (rows a !! i) as [xs|]; [|done]. simpl.
  destruct (rows b !! i) as [ys|]; simpl.
  - rewrite lookup_zip_with. by destruct (xs !! j).
  - by destruct (xs !! j).
Qed.

(** ** The weight constraint (claim C8) *)

(** C8 (as stated, refuted).  The claim: for every 0/1 mask and every weight
    matrix the constrained result is zero wherever the mask is zero.  An
    infinite weight under a zero of the mask gives NaN. *)
Lemma masked_constraint_infinite_weight :
  let mask := mkTensor 1 1 [[f32.zero]] in
  let x := mkTensor 1 1 [[S754_infinity false]] in
  wf_tensor mask ∧ is_mask mask ∧ wf_tensor x ∧ float32_tensor x
  ∧ ¬ (∀ y, make_masked_constraint mask x = Ok y →
        ∀ i j, entry mask i j = Some f32.zero →
          ∃ w, entry y i j = Some w ∧ f32.is_zero w = true).
Proof.
  split_and!; try (by repeat constructor).
  intros Hclaim.
  destruct (Hclaim (mkTensor 1 1 [[S754_nan]]) eq_refl 0%nat 0%nat eq_refl)
    as (w & [= <-] & Hzero).
  done.
Qed.

(** C8 (amended).  For every 0/1 mask [m] and every float32 weight matrix [x]
    of the mask's shape, the constraint made from [m] returns a matrix [y] of
    that shape which is zero at every entry where [m] is zero and [x] is
    finite, and is left unchanged by the constraint (idempotence). *)
Theorem masked_constraint_projection mask x :
  wf_tensor mask → is_mask mask →
  wf_tensor x → float32_tensor x → shape x = shape mask →
  ∃ y,
    make_masked_constraint mask x = Ok y
    ∧ wf_tensor y ∧ shape y = shape mask
    ∧ (∀ i j v, entry mask i j = Some f32.zero → entry x i j = Some v →
         f32.is_finite v = true →
         ∃ w, entry y i j = Some w ∧ f32.is_zero w = true)
    ∧ make_masked_constraint mask y = Ok y.
Proof.
  intros Hwfm Hmask Hwfx Hvalid Hshape.
  unfold make_masked_constraint, tf.identity.
  rewrite (multiply_same_shape mask x) by done.
  pose proof Hwfm as [Hm0 Hm1]. pose proof Hwfx as [Hx0 Hx1].
  injection Hshape as Hs0 Hs1.
  set (y := mkTensor _ _ _).
  assert (wf_tensor y) as Hwfy.
  { split; simpl.
    - rewrite length_zip_with. lia.
    - apply Forall_length_zip_with; [done|]. by rewrite <- Hs1. }
  exists y. split_and!; [done|done|done| |].
  - intros i j v Hmij Hxij Hfin. exists (f32.mul f32.zero v). split.
    + unfold y. by rewrite entry_zip_with, Hmij, Hxij.
    + by apply mul_zero_l_finite.
  - rewrite (multiply_same_shape mask y) by done.
    unfold y. simpl. f_equal. f_equal.
    apply (zip_with_idemp _ (Forall (λ v, v = f32.zero ∨ v = f32.one))
             (Forall (λ v, f32.valid v = true))); [|done..].
    intros ms xs Hms Hxs.
    apply (zip_with_idemp _ (λ v, v = f32.zero ∨ v = f32.one)
             (λ v, f32.valid v = true)); [|done..].
    apply mul_mask_value_idemp.
Qed.

Lemma masked_constraint_projection_witness :
  let mask := mkTensor 2 2 [[f32.zero; f32.one]; [f32.one; f32.zero]] in
  let x := mkTensor 2 2 [[S754_finite true 12582912 (-20); S754_zero true];
                         [S754_infinity false; S754_finite false 10485760 (-22)]] in
  wf_tensor mask ∧ is_mask mask ∧ wf_tensor x ∧ float32_tensor x
  ∧ shape x = shape mask
  ∧ ∃ y,
      make_masked_constraint mask x = Ok y
      ∧ wf_tensor y ∧ shape y = shape mask
      ∧ (∀ i j v, entry mask i j = Some f32.zero → entry x i j = Some v →
           f32.is_finite v = true →
           ∃ w, entry y i j = Some w ∧ f32.is_zero w = true)
      ∧ make_masked_constraint mask y = Ok y.
Proof.
  intros mask x.
  assert (wf_tensor mask) as Hwfm by (by repeat constructor).
  assert (is_mask mask) as Hmask by (repeat constructor; auto).
  assert (wf_tensor x) as Hwfx by (by repeat constructor).
  assert (float32_tensor x) as Hvalid by (by repeat constructor).
  split_and!; [done..|].
  exact (masked_constraint_projection mask x Hwfm Hmask Hwfx Hvalid eq_refl).
Defined.

(** ** Composed connectivity (claim C10) *)

Lemma consecutive_masks_zip d ds :
  (λ '(input_degrees, output_degrees),
     tf.cast_float32 (outer_compare Z.leb input_degrees output_degrees))
  <$> zip (take (length (d :: ds) - 1) (d :: ds)) (drop 1 (d :: ds))
  = consecutive_masks d ds.
Proof.
  revert d. induction ds as [|d' ds IH]; intros d; [done|].
  specialize (IH d').
  change (length (d' :: ds) - 1)%nat with (length ds - 0)%nat in IH.
  rewrite Nat.sub_0_r in IH.
  change (drop 1 (d' :: ds)) with ds in IH.
  change (length (d :: d' :: ds) - 1)%nat with (S (length ds)).
  change (drop 1 (d :: d' :: ds)) with (d' :: ds).
  change (take (S (length ds)) (d :: d' :: ds))
    with (d :: take (length ds) (d' :: ds)).
  cbn [zip_with fmap list_fmap consecutive_masks]. by rewrite <- IH.
Qed.

Lemma masks_of_degrees_cons d ds :
  masks_of_degrees (d :: ds)
  = Ok (consecutive_masks d ds
        ++ [tf.cast_float32 (outer_compare Z.ltb (default d (last ds)) d)]).
Proof.
  unfold masks_of_degrees. rewrite consecutive_masks_zip, last_cons. cbn [head].
  by destruct (last ds).
Qed.

Lemma entry_mask_to_Z op a b i j v :
  entry (tensor_map f32.to_Z (tf.cast_float32 (outer_compare op a b))) i j = Some v →
  ∃ x y, a !! i = Some x ∧ b !! j = Some y ∧ v = if op x y then 1 else 0.
Proof.
  unfold entry, tf.cast_float32, tensor_map, outer_compare. simpl.
  rewrite !list_lookup_fmap. destruct (a !! i) as [x|]; [|done]. simpl.
  rewrite !list_lookup_fmap. destruct (b !! j) as [y|]; [|done]. simpl.
  intros [= <-]. exists x, y. split_and!; [done..|]. by destruct (op x y).
Qed.

Lemma mask_connects op a b :
  connects (λ x y, op x y = true) a b
    (tensor_map f32.to_Z (tf.cast_float32 (outer_compare op a b))).
Proof.
  intros i j v Hv Hnz. apply entry_mask_to_Z in Hv as (x & y & Ha & Hb & ->).
  exists x, y. split_and!; [done..|]. by destruct (op x y).
Qed.

Lemma dot_nonzero u v :
  dot u v ≠ 0 → ∃ k x y, u !! k = Some x ∧ v !! k = Some y ∧ x ≠ 0 ∧ y ≠ 0.
Proof.
  revert v. induction u as [|x u IH]; intros [|y v]; try done.
  unfold dot. simpl. fold (dot u v). intros Hnz.
  destruct (decide (x * y = 0)) as [Hxy|Hxy].
  - destruct (IH v) as (k & x' & y' & ? & ? & ? & ?); [lia|].
    exists (S k), x', y'. done.
  - exists 0%nat, x, y. split_and!; [done|done|lia|lia].
Qed.

Lemma matmul_entry p q r i j v :
  matmul p q = Ok r → entry r i j = Some v → v ≠ 0 →
  ∃ k x y, entry p i k = Some x ∧ entry q k j = Some y ∧ x ≠ 0 ∧ y ≠ 0.
Proof.
  unfold matmul. destruct (decide (dim1 p = dim0 q)); [|done].
  intros [= <-]. unfold entry at 1. simpl. rewrite list_lookup_fmap.
  destruct (rows p !! i) as [row|] eqn:Hrow; [|done]. simpl.
  rewrite list_lookup_fmap. destruct (seq 0 (dim1 q) !! j) as [j'|] eqn:Hj; [|done].
  apply lookup_seq in Hj as [-> _]. simpl. intros [= <-] Hnz.
  apply dot_nonzero in Hnz as (k & x & y & Hx & Hy & Hxnz & Hynz).
  exists k, x, y. unfold entry. rewrite Hrow. simpl. split_and!; [done| |done..].
  unfold column in Hy. rewrite list_lookup_fmap in Hy.
  destruct (rows q !! k) as [rq|]; [|done]. simpl in *.
  injection Hy as Hy. destruct (rq !! j); simpl in *; congruence.
Qed.

(** Composition: a product connects what its factors connect in sequence. *)
Lemma matmul_connects (R1 R2 R3 : Z → Z → Prop) a b c p q :
  dim1 p = dim0 q →
  connects R1 a b p → connects R2 b c q →
  (∀ x y z, R1 x y → R2 y z → R3 x z) →
  ∃ r, matmul p q = Ok r ∧ connects R3 a c r
       ∧ dim0 r = dim0 p ∧ dim1 r = dim1 q.
Proof.
  intros Hdim Hp Hq Htrans.
  destruct (matmul p q) as [r|] eqn:Hr.
  2: { unfold matmul in Hr. by rewrite decide_True in Hr. }
  exists r. split_and!; [done| |..].
  - intros i j v Hv Hnz.
    destruct (matmul_entry _ _ _ _ _ _ Hr Hv Hnz) as (k & x & y & Hx & Hy & Hxnz & Hynz).
    destruct (Hp _ _ _ Hx Hxnz) as (da & db & Ha & Hb & HR1).
    destruct (Hq _ _ _ Hy Hynz) as (db' & dc & Hb' & Hc & HR2).
    rewrite Hb in Hb'. injection Hb' as <-. eauto 8.
  - unfold matmul in Hr. rewrite decide_True in Hr by done. by injection Hr as <-.
  - unfold matmul in Hr. rewrite decide_True in Hr by done. by injection Hr as <-.
Qed.

Lemma default_last_cons {A} (d d' : A) ds :
  default d (last (d' :: ds)) = default d' (last ds).
Proof. rewrite last_cons. by destruct (last ds). Qed.

(** Continuing a product that reaches the layer of degrees [d] through the
    remaining masks: the whole product relates input degrees strictly. *)
Lemma chain_connects d0 ds d p :
  dim1 p = length d → connects Z.le d0 d p →
  ∃ r,
    foldl (λ acc b, acc ≫= λ a, matmul a b) (Ok p)
      (tensor_map f32.to_Z
       <$> consecutive_masks d ds
           ++ [tf.cast_float32 (outer_compare Z.ltb (default d (last ds)) d0)])
    = Ok r
    ∧ connects Z.lt d0 d0 r ∧ dim0 r = dim0 p ∧ dim1 r = length d0.
Proof.
  revert d p. induction ds as [|d' ds IH]; intros d p Hdim Hp.
  - simpl.
    destruct (matmul_connects Z.le (λ x y, (x <? y) = true) Z.lt d0 d d0 p
                (tensor_map f32.to_Z (tf.cast_float32 (outer_compare Z.ltb d d0))))
      as (r & Hr & Hconn & Hd0 & Hd1); [done|done|apply mask_connects| |].
    { intros x y z Hxy Hyz%Z.ltb_lt. lia. }
    exists r. by rewrite Hr.
  - cbn [consecutive_masks app fmap list_fmap foldl]. rewrite default_last_cons.
    destruct (matmul_connects Z.le (λ x y, (x <=? y) = true) Z.le d0 d d' p
                (tensor_map f32.to_Z (tf.cast_float32 (outer_compare Z.leb d d'))))
      as (p' & Hp' & Hconn & Hd0 & Hd1); [done|done|apply mask_connects| |].
    { intros x y z Hxy Hyz%Z.leb_le. lia. }
    cbn [mbind result_bind]. rewrite Hp'.
    destruct (IH d' p') as (r & Hr & Hconn' & Hr0 & Hr1); [done|done|].
    exists r. split_and!; [done|done|congruence|done].
Qed.

(** The product of the masks of any list of degree vectors has a nonzero
    entry [(i, j)] only if the degree of input [i] is below that of [j]. *)
Lemma connectivity_of_degrees d0 ds masks :
  masks_of_degrees (d0 :: ds) = Ok masks →
  ∃ r, connectivity masks = Ok r ∧ connects Z.lt d0 d0 r
       ∧ shape r = (length d0, length d0).
Proof.
  rewrite masks_of_degrees_cons. intros [= <-]. unfold connectivity.
  destruct ds as [|d1 ds].
  - simpl. eexists. split_and!; [done| |done].
    intros i j v Hv Hnz.
    destruct (mask_connects Z.ltb d0 d0 i j v Hv Hnz) as (x & y & ? & ? & ?%Z.ltb_lt).
    eauto.
  - cbn [consecutive_masks app fmap list_fmap matmul_chain].
    rewrite default_last_cons.
    destruct (chain_connects d0 ds d1
                (tensor_map f32.to_Z (tf.cast_float32 (outer_compare Z.leb d0 d1))))
      as (r & Hr & Hconn & Hr0 & Hr1); [done| |].
    { intros i j v Hv Hnz.
      destruct (mask_connects Z.leb d0 d1 i j v Hv Hnz) as (x & y & ? & ? & ?%Z.leb_le).
      eauto. }
    exists r. split_and!; [done|done|]. unfold shape. by rewrite Hr0, Hr1.
Qed.

(** C10.  For every [input_dim >= 2] and every [hidden_dims], with
    ['left-to-right'] input and hidden orders [create_masks] returns, the
    product of its masks is defined, and an entry [(i, j)] of the product is
    nonzero only if [input_degree[i] < input_degree[j]]; in particular the
    row of the input with the largest degree, [input_dim], is zero. *)
Theorem left_to_right_connectivity input_dim hidden_dims rs :
  2 ≤ input_dim →
  ∃ degrees input_degrees masks product,
    create_degrees input_dim hidden_dims (OrderName "left-to-right")
      "left-to-right" rs = Ok (degrees, rs)
    ∧ head degrees = Some input_degrees
    ∧ create_masks input_dim hidden_dims (OrderName "left-to-right")
        "left-to-right" rs = Ok (masks, rs)
    ∧ connectivity masks = Ok product
    ∧ shape product = (Z.to_nat input_dim, Z.to_nat input_dim)
    ∧ (∀ i j v, entry product i j = Some v → v ≠ 0 →
         ∃ di dj, input_degrees !! i = Some di ∧ input_degrees !! j = Some dj
                  ∧ di < dj)
    ∧ (∀ i j v, input_degrees !! i = Some input_dim →
         entry product i j = Some v → v = 0).
Proof.
  intros Hdim.
  set (d0 := np.arange 1 (input_dim + 1)).
  set (ds := (λ units, left_to_right_degree input_dim <$> np.arange 0 units)
               <$> hidden_dims).
  assert (create_degrees input_dim hidden_dims (OrderName "left-to-right")
            "left-to-right" rs = Ok (d0 :: ds, rs)) as Hcd.
  { apply create_degrees_Ok. split; [by right|]. exists d0, rs.
    split_and!; [done| |by right; left].
    by rewrite hidden_degrees_loop_left_to_right. }
  destruct (masks_of_degrees_nonempty (d0 :: ds)) as [masks Hms]; [done|].
  destruct (connectivity_of_degrees d0 ds masks Hms) as (r & Hr & Hconn & Hshape).
  exists (d0 :: ds), d0, masks, r. split_and!; [done|done| |done| | |].
  - apply create_masks_Ok. eauto.
  - rewrite Hshape. unfold d0. rewrite length_arange. repeat f_equal; lia.
  - intros i j v Hv Hnz. destruct (Hconn i j v Hv Hnz) as (x & y & ? & ? & ?). eauto.
  - intros i j v Hi Hv. destruct (decide (v = 0)) as [|Hnz]; [done|].
    destruct (Hconn i j v Hv Hnz) as (x & y & Hx & Hy & Hlt).
    rewrite Hi in Hx. injection Hx as <-.
    apply lookup_arange in Hy. lia.
Qed.

Lemma left_to_right_connectivity_witness :
  2 ≤ 3
  ∧ ∃ degrees input_degrees masks product,
      create_degrees 3 [4; 2] (OrderName "left-to-right")
        "left-to-right" sample_rs = Ok (degrees, sample_rs)
      ∧ head degrees = Some input_degrees
      ∧ create_masks 3 [4; 2] (OrderName "left-to-right")
          "left-to-right" sample_rs = Ok (masks, sample_rs)
      ∧ connectivity masks = Ok product
      ∧ shape product = (Z.to_nat 3, Z.to_nat 3)
      ∧ (∀ i j v, entry product i j = Some v → v ≠ 0 →
           ∃ di dj, input_degrees !! i = Some di ∧ input_degrees !! j = Some dj
                    ∧ di < dj)
      ∧ (∀ i j v, input_degrees !! i = Some 3 →
           entry product i j = Some v → v = 0).
Proof.
  split; [lia|].
  apply (left_to_right_connectivity 3 [4; 2] sample_rs). lia.
Defined.

(** The product for three inputs and hidden layers of four and two units. *)
Example left_to_right_connectivity_3_4_2 :
  (create_masks 3 [4; 2] (OrderName "left-to-right") "left-to-right" sample_rs
   ≫= λ '(masks, _), connectivity masks)
  = Ok (mkTensor 3 3 [[0; 2; 6]; [0; 0; 2]; [0; 0; 0]]).
Proof. reflexivity. Qed.

(** * Further properties of the code *)

(** ** Order validation in [create_degrees] *)

(** X1.  [create_degrees] raises [ValueError] as soon as the input order is a
    name other than the three it knows, or the hidden order is unknown,
    whatever the other arguments are (an explicit array is not looked at
    before the hidden order is checked); the input order is reported
    first. *)
Theorem create_degrees_rejects_unknown_order input_dim hidden_dims input_order
    hidden_order rs :
  (∃ name, input_order = OrderName name ∧ name ≠ "random"%string
           ∧ name ≠ "left-to-right"%string ∧ name ≠ "right-to-left"%string)
  ∨ ¬ valid_hidden_order hidden_order →
  ∃ msg,
    create_degrees input_dim hidden_dims input_order hidden_order rs
    = Raise (ValueError msg)
    ∧ (msg = "Input order is not valid."%string
       ↔ ∃ name, input_order = OrderName name ∧ name ≠ "random"%string
                 ∧ name ≠ "left-to-right"%string ∧ name ≠ "right-to-left"%string).
Proof.
  intros Hbad. unfold create_degrees.
  destruct input_order as [name|a].
  - destruct (in_names name _) eqn:Hname; cbn [negb].
    + apply in_names_input_order in Hname.
      destruct Hbad as [(name' & [= <-] & ? & ? & ?)|Hho];
        [by destruct Hname as [?|[?|?]]|].
      destruct (in_names hidden_order _) eqn:Hh; cbn [negb].
      { by apply in_names_hidden_order in Hh. }
      eexists. split; [done|]. split; [done|].
      intros (name' & [= <-] & ? & ? & ?). by destruct Hname as [?|[?|?]].
    + eexists. split; [done|]. split; [|done]. intros _.
      exists name. split; [done|].
      split_and!; intros ->; discriminate Hname.
  - destruct Hbad as [(name' & [=] & _)|Hho].
    destruct (in_names hidden_order _) eqn:Hh; cbn [negb].
    { by apply in_names_hidden_order in Hh. }
    eexists. split; [done|]. split; [done|]. by intros (name' & [=] & _).
Qed.

Lemma create_degrees_rejects_unknown_order_witness :
  ((∃ name, OrderArray [7; 7] = OrderName name ∧ name ≠ "random"%string
            ∧ name ≠ "left-to-right"%string ∧ name ≠ "right-to-left"%string)
   ∨ ¬ valid_hidden_order "right-to-left")
  ∧ ∃ msg,
      create_degrees 3 [4] (OrderArray [7; 7]) "right-to-left" sample_rs
      = Raise (ValueError msg)
      ∧ (msg = "Input order is not valid."%string
         ↔ ∃ name, OrderArray [7; 7] = OrderName name ∧ name ≠ "random"%string
                   ∧ name ≠ "left-to-right"%string
                   ∧ name ≠ "right-to-left"%string).
Proof.
  assert (¬ valid_hidden_order "right-to-left") as Hho.
  { intros [H|H]; discriminate H. }
  split; [by right|].
  apply (create_degrees_rejects_unknown_order 3 [4] (OrderArray [7; 7])
           "right-to-left" sample_rs).
  by right.
Defined.

(** ** The check of an explicit input order *)

Lemma all_not_equal_false (a b : list Z) :
  length a = length b → np.all (np.not_equal a b) = false →
  ∃ i x, a !! i = Some x ∧ b !! i = Some x.
Proof.
  intros Hlen. unfold np.not_equal. rewrite decide_True by done.
  revert b Hlen. induction a as [|x a IH]; intros [|y b] Hlen; try done.
  simpl. intros [Hxy|Hall]%andb_false_iff.
  - unfold id in Hxy. apply negb_false_iff, Z.eqb_eq in Hxy as ->.
    by exists 0%nat, y.
  - destruct (IH b) as (i & z & ? & ?); [simpl in Hlen; lia|done|].
    by exists (S i), z.
Qed.

(** X2.  An explicit order with [input_dim] entries is accepted by
    [create_degrees] exactly when at least one of its sorted entries equals
    the degree of its position; the random state is not used. *)
Theorem explicit_order_accepted_iff input_dim hidden_dims a rs :
  length a = Z.to_nat input_dim →
  (∃ degrees,
     create_degrees input_dim hidden_dims (OrderArray a) "left-to-right" rs
     = Ok (degrees, rs))
  ↔ ∃ i, np.sort a !! i = Some (1 + Z.of_nat i).
Proof.
  intros Hlen.
  assert (length (np.sort a) = length (np.arange 1 (input_dim + 1))) as Hlen'.
  { unfold np.sort. rewrite merge_sort_Permutation, length_arange. lia. }
  split.
  - intros (degrees & Hcd).
    apply create_degrees_Ok in Hcd as (_ & d & rs1 & Hin & _).
    simpl in Hin. destruct (np.all _) eqn:Hall; [done|].
    apply all_not_equal_false in Hall as (i & x & Hx & Hy); [|done].
    apply lookup_arange in Hy as [-> _]. eauto.
  - intros [i Hi].
    destruct (input_degrees_of input_dim (OrderArray a) rs) as [[d rs1]|e] eqn:Hin.
    + assert (rs1 = rs) as ->.
      { simpl in Hin. destruct (np.all _); [done|]. by injection Hin as _ <-. }
      eexists. apply create_degrees_Ok. split; [by right|].
      exists d, rs. split_and!; [done| |done].
      apply hidden_degrees_loop_left_to_right.
    + exfalso. assert (e = ValueError "invalid input order") as ->.
      { simpl in Hin. destruct (np.all _); [by injection Hin as <-|done]. }
      by apply (proj1 (explicit_order_rejected_iff input_dim a rs Hlen) Hin i
                  (1 + Z.of_nat i)).
Qed.

Lemma explicit_order_accepted_iff_witness :
  length [1; 1; 3] = Z.to_nat 3
  ∧ ((∃ degrees,
        create_degrees 3 [2] (OrderArray [1; 1; 3]) "left-to-right" sample_rs
        = Ok (degrees, sample_rs))
     ↔ ∃ i, np.sort [1; 1; 3] !! i = Some (1 + Z.of_nat i)).
Proof.
  split; [reflexivity|].
  apply (explicit_order_accepted_iff 3 [2] [1; 1; 3] sample_rs). reflexivity.
Defined.

(** ** The ['random'] input order *)

Lemma insert_Permutation_cons (l : list Z) j a b :
  l !! j = Some b → b :: <[j := a]> l ≡ₚ a :: l.
Proof.
  revert j. induction l as [|y l IH]; intros [|j] Hj; try done.
  - simpl in *. injection Hj as ->. apply Permutation_swap.
  - simpl in *. etrans; [apply Permutation_swap|].
    etrans; [apply Permutation_skip, (IH j Hj)|]. apply Permutation_swap.
Qed.

Lemma swap_Permutation x i j : np.swap x i j ≡ₚ x.
Proof.
  unfold np.swap.
  destruct (x !! i) as [a|] eqn:Hi; [|done].
  destruct (x !! j) as [b|] eqn:Hj; [|done].
  revert i j Hi Hj. induction x as [|y x IH]; intros [|i] [|j] Hi Hj; try done;
    simpl in *.
  - injection Hi as ->. by injection Hj as ->.
  - injection Hi as ->. by apply insert_Permutation_cons.
  - injection Hj as ->. by apply insert_Permutation_cons.
  - apply Permutation_skip. by apply IH.
Qed.

Lemma shuffle_from_Permutation i x rs : (np.shuffle_from i x rs).1 ≡ₚ x.
Proof.
  revert x rs. induction i as [|i IH]; intros x rs; [done|].
  cbn [np.shuffle_from]. destruct (np.draw _ _ _) as [j rs1].
  by rewrite IH, swap_Permutation.
Qed.

(** X3.  With input order ['random'] the input degrees are a permutation of
    [1..input_dim], whatever the random stream. *)
Theorem random_input_degrees_permutation input_dim hidden_dims hidden_order rs
    degrees rs' :
  create_degrees input_dim hidden_dims (OrderName "random") hidden_order rs
  = Ok (degrees, rs') →
  ∃ input_degrees,
    head degrees = Some input_degrees
    ∧ input_degrees ≡ₚ np.arange 1 (input_dim + 1).
Proof.
  intros Hcd. apply create_degrees_head in Hcd as (d & rs1 & Hin & Hhead & _).
  exists d. split; [done|]. simpl in Hin.
  destruct (np.random_shuffle _ rs) as [d' rs2] eqn:Hsh. injection Hin as <- <-.
  change d' with (d', rs2).1. rewrite <- Hsh. apply shuffle_from_Permutation.
Qed.

Lemma random_input_degrees_permutation_witness :
  create_degrees 5 [] (OrderName "random") "left-to-right" sample_rs
  = Ok ([[2; 1; 5; 3; 4]], np.mkRandomState (np.stream sample_rs) 4)
  ∧ ∃ input_degrees,
      head [[2; 1; 5; 3; 4]] = Some input_degrees
      ∧ input_degrees ≡ₚ np.arange 1 (5 + 1).
Proof.
  split; [reflexivity|].
  apply (random_input_degrees_permutation 5 [] "left-to-right" sample_rs
           [[2; 1; 5; 3; 4]] (np.mkRandomState (np.stream sample_rs) 4)).
  reflexivity.
Defined.

(** ** Use of the random state *)

(** X4.  Unless an order is ['random'], [create_degrees] does not touch
    [np.random]: with hidden order ['left-to-right'] and an input order other
    than ['random'] the random state comes back unchanged and the degrees do
    not depend on it. *)
Theorem create_degrees_without_randomness input_dim hidden_dims input_order rs
    degrees rs' :
  input_order ≠ OrderName "random" →
  create_degrees input_dim hidden_dims input_order "left-to-right" rs
  = Ok (degrees, rs') →
  rs' = rs
  ∧ ∀ rs2,
      create_degrees input_dim hidden_dims input_order "left-to-right" rs2
      = Ok (degrees, rs2).
Proof.
  intros Hnot Hcd.
  apply create_degrees_Ok in Hcd as (Hho & d & rs1 & Hin & Hloop & Hname).
  rewrite hidden_degrees_loop_left_to_right in Hloop. injection Hloop as <- <-.
  assert (rs1 = rs ∧ ∀ rs2, input_degrees_of input_dim input_order rs2 = Ok (d, rs2))
    as [-> Hin2].
  { destruct input_order as [name|a]; simpl in *.
    - destruct Hname as [->|[->| ->]]; [done| |]; simpl in *;
        injection Hin as <- <-; done.
    - destruct (np.all _); [done|]. by injection Hin as <- <-. }
  split; [done|]. intros rs2. apply create_degrees_Ok. split; [done|].
  exists d, rs2. split_and!; [done| |done].
  apply hidden_degrees_loop_left_to_right.
Qed.

Lemma create_degrees_without_randomness_witness :
  OrderName "right-to-left" ≠ OrderName "random"
  ∧ create_degrees 3 [4] (OrderName "right-to-left") "left-to-right" sample_rs
    = Ok ([[3; 2; 1]; [1; 2; 1; 2]], sample_rs)
  ∧ sample_rs = sample_rs
  ∧ ∀ rs2,
      create_degrees 3 [4] (OrderName "right-to-left") "left-to-right" rs2
      = Ok ([[3; 2; 1]; [1; 2; 1; 2]], rs2).
Proof.
  assert (OrderName "right-to-left" ≠ OrderName "random") as Hne by discriminate.
  split; [exact Hne|]. split; [reflexivity|].
  apply (create_degrees_without_randomness 3 [4] (OrderName "right-to-left")
           sample_rs [[3; 2; 1]; [1; 2; 1; 2]] sample_rs Hne).
  reflexivity.
Defined.

(** ** When the ['random'] hidden order fails *)

Lemma draws_length n low high rs : length (np.draws n low high rs).1 = n.
Proof. apply draws_spec. Qed.

(** The loop over the hidden layers, started after a layer [prev]: it returns
    exactly on the sizes [random_sizes_ok] accepts, and otherwise raises
    [ValueError]. *)
Lemma hidden_degrees_loop_random_returns input_dim hidden_dims degrees prev rs :
  last degrees = Some prev →
  (hidden_dims = [] ∨ (prev ≠ [] ∧ random_sizes_ok hidden_dims = true) →
   ∃ out rs',
     hidden_degrees_loop input_dim "random" hidden_dims degrees rs = Ok (out, rs'))
  ∧ (¬ (hidden_dims = [] ∨ (prev ≠ [] ∧ random_sizes_ok hidden_dims = true)) →
     ∃ msg,
       hidden_degrees_loop input_dim "random" hidden_dims degrees rs
       = Raise (ValueError msg)).
Proof.
  revert degrees prev rs.
  induction hidden_dims as [|units hidden_dims IH]; intros degrees prev rs Hlast.
  { split; [simpl; eauto|]. intros []. by left. }
  cbn [hidden_degrees_loop].
  change (String.eqb "random" "random") with true. cbv iota. rewrite Hlast.
  destruct prev as [|p prev].
  { split; [intros [?|[? _]]; done|]. intros _. simpl. eauto. }
  cbn [np.min].
  set (low := Z.min (foldl Z.min p prev) (input_dim - 1)).
  destruct (Z.ltb_spec units 0) as [Hneg|Hnonneg].
  { assert (np.random_randint low input_dim units rs
            = Raise (ValueError "negative dimensions are not allowed")) as ->.
    { unfold np.random_randint. by rewrite (proj2 (Z.ltb_lt units 0)). }
    split; [|eauto]. intros [?|[_ Hok]]; [done|]. exfalso.
    destruct hidden_dims; cbn [random_sizes_ok] in Hok.
    - apply Z.leb_le in Hok. lia.
    - apply andb_prop in Hok as [Hok%Z.leb_le _]. lia. }
  destruct (np.draws (Z.to_nat units) low input_dim rs) as [h rs1] eqn:Hdraws.
  assert (np.random_randint low input_dim units rs = Ok (h, rs1)) as ->.
  { apply random_randint_Ok. unfold low. split_and!; [lia|lia|done]. }
  assert (length h = Z.to_nat units) as Hlen.
  { change h with (h, rs1).1. rewrite <- Hdraws. apply draws_length. }
  destruct (IH (degrees ++ [h]) h rs1) as [IHok IHbad]; [by rewrite last_snoc|].
  destruct hidden_dims as [|units' hidden_dims].
  { split; [|intros Hno; exfalso; apply Hno; right; split; [done|]].
    - intros _. apply IHok. by left.
    - cbn [random_sizes_ok]. apply Z.leb_le. lia. }
  split.
  - intros [?|[_ Hok]]; [done|]. cbn [random_sizes_ok] in Hok.
    apply andb_prop in Hok as [Hu%Z.leb_le Hok]. apply IHok. right.
    split; [|done]. intros ->. simpl in Hlen. lia.
  - intros Hno. apply IHbad. intros [?|[Hh Hok]]; [done|]. apply Hno. right.
    split; [done|]. cbn [random_sizes_ok]. apply andb_true_intro. split; [|done].
    apply Z.leb_le. destruct h; [done|]. simpl in Hlen. lia.
Qed.

(** X5.  With a named input order and hidden order ['random'],
    [create_degrees] returns exactly when there is no hidden layer, or
    [input_dim >= 1], every hidden size but the last is at least 1 and the
    last is at least 0; in every other case it raises [ValueError]. *)
Theorem random_hidden_order_returns_iff input_dim hidden_dims name rs :
  name = "random"%string ∨ name = "left-to-right"%string
  ∨ name = "right-to-left"%string →
  (hidden_dims = [] ∨ (1 ≤ input_dim ∧ random_sizes_ok hidden_dims = true) →
   ∃ degrees rs',
     create_degrees input_dim hidden_dims (OrderName name) "random" rs
     = Ok (degrees, rs'))
  ∧ (¬ (hidden_dims = [] ∨ (1 ≤ input_dim ∧ random_sizes_ok hidden_dims = true)) →
     ∃ msg,
       create_degrees input_dim hidden_dims (OrderName name) "random" rs
       = Raise (ValueError msg)).
Proof.
  intros Hname.
  assert (∃ d rs1, input_degrees_of input_dim (OrderName name) rs = Ok (d, rs1)
                   ∧ length d = Z.to_nat input_dim) as (d & rs1 & Hin & Hlen).
  { simpl. destruct (String.eqb name "right-to-left").
    { eexists _, _. split; [done|].
      unfold np.flip. rewrite length_reverse, length_arange. f_equal. lia. }
    destruct (String.eqb name "random").
    { destruct (np.random_shuffle _ rs) as [d rs1] eqn:Hsh.
      eexists _, _. split; [done|].
      change d with (d, rs1).1. rewrite <- Hsh, length_random_shuffle.
      rewrite length_arange. f_equal. lia. }
    eexists _, _. split; [done|]. rewrite length_arange. f_equal. lia. }
  assert (d ≠ [] ↔ 1 ≤ input_dim) as Hne.
  { destruct d; simpl in Hlen; split; (done || lia). }
  destruct (hidden_degrees_loop_random_returns input_dim hidden_dims [d] d rs1)
    as [Hok Hbad]; [done|].
  assert (create_degrees input_dim hidden_dims (OrderName name) "random" rs
          = hidden_degrees_loop input_dim "random" hidden_dims [d] rs1) as ->.
  { unfold create_degrees. rewrite Hin.
    rewrite (proj2 (in_names_input_order name) Hname). done. }
  split.
  - intros Hc. apply Hok. destruct Hc as [?|[? ?]]; [by left|right].
    split; [by apply Hne|done].
  - intros Hc. apply Hbad. intros [?|[? ?]]; apply Hc; [by left|right].
    split; [by apply Hne|done].
Qed.

Lemma random_hidden_order_returns_iff_witness :
  ("right-to-left"%string = "random"%string
   ∨ "right-to-left"%string = "left-to-right"%string
   ∨ "right-to-left"%string = "right-to-left"%string)
  ∧ ([4; 0; 3] = [] ∨ (1 ≤ 5 ∧ random_sizes_ok [4; 0; 3] = true) →
     ∃ degrees rs',
       create_degrees 5 [4; 0; 3] (OrderName "right-to-left") "random" sample_rs
       = Ok (degrees, rs'))
  ∧ (¬ ([4; 0; 3] = [] ∨ (1 ≤ 5 ∧ random_sizes_ok [4; 0; 3] = true)) →
     ∃ msg,
       create_degrees 5 [4; 0; 3] (OrderName "right-to-left") "random" sample_rs
       = Raise (ValueError msg)).
Proof.
  assert ("right-to-left"%string = "random"%string
          ∨ "right-to-left"%string = "left-to-right"%string
          ∨ "right-to-left"%string = "right-to-left"%string) as Hname.
  { right; right; reflexivity. }
  split; [exact Hname|].
  exact (random_hidden_order_returns_iff 5 [4; 0; 3] "right-to-left" sample_rs Hname).
Defined.

(** ** Failures of [create_masks] *)

(** X6.  [create_masks] adds no failure of its own: it raises exactly when
    [create_degrees] raises on the same arguments, with the same exception. *)
Theorem create_masks_raises_iff input_dim hidden_dims input_order hidden_order rs e :
  create_masks input_dim hidden_dims input_order hidden_order rs = Raise e
  ↔ create_degrees input_dim hidden_dims input_order hidden_order rs = Raise e.
Proof.
  unfold create_masks.
  destruct (create_degrees _ _ _ _ _) as [[degrees rs1]|e'] eqn:Hcd.
  - apply create_degrees_head in Hcd as (_ & _ & _ & _ & Hlen).
    destruct (masks_of_degrees_nonempty degrees) as [masks ->]; [|done].
    intros ->. done.
  - split; intros [= ->]; done.
Qed.

(** ** The masks as 0/1 tensors *)

Lemma is_mask_cast_outer op a b : is_mask (tf.cast_float32 (outer_compare op a b)).
Proof.
  unfold is_mask. simpl. rewrite !Forall_fmap. apply Forall_forall. intros x _.
  simpl. rewrite !Forall_fmap. apply Forall_forall. intros y _. simpl.
  destruct (op x y); auto.
Qed.

Lemma consecutive_masks_Forall (P : Tensor spec_float → Prop) d ds :
  (∀ op a b, P (tf.cast_float32 (outer_compare op a b))) →
  Forall P (consecutive_masks d ds).
Proof.
  intros HP. revert d. induction ds as [|d' ds IH]; intros d; simpl;
    constructor; auto.
Qed.

(** X7.  Every mask [create_masks] returns is a well-formed rank-2 tensor
    whose entries are the float32 values 0 and 1 only. *)
Theorem create_masks_are_masks input_dim hidden_dims input_order hidden_order rs
    masks rs' :
  create_masks input_dim hidden_dims input_order hidden_order rs = Ok (masks, rs') →
  Forall (λ mask, wf_tensor mask ∧ is_mask mask) masks.
Proof.
  intros (degrees & Hcd & Hms)%create_masks_Ok.
  destruct degrees as [|d ds]; [done|].
  rewrite masks_of_degrees_cons in Hms. injection Hms as <-.
  apply Forall_app. split.
  - apply consecutive_masks_Forall. intros op a b.
    split; [apply wf_cast_outer|apply is_mask_cast_outer].
  - constructor; [|constructor].
    split; [apply wf_cast_outer|apply is_mask_cast_outer].
Qed.

Lemma create_masks_are_masks_witness :
  create_masks 2 [1] (OrderName "left-to-right") "left-to-right" sample_rs
  = Ok ([mkTensor 2 1 [[f32.one]; [f32.zero]];
         mkTensor 1 2 [[f32.zero; f32.one]]], sample_rs)
  ∧ Forall (λ mask, wf_tensor mask ∧ is_mask mask)
      [mkTensor 2 1 [[f32.one]; [f32.zero]]; mkTensor 1 2 [[f32.zero; f32.one]]].
Proof.
  split; [reflexivity|].
  apply (create_masks_are_masks 2 [1] (OrderName "left-to-right") "left-to-right"
           sample_rs _ sample_rs).
  reflexivity.
Defined.

(** ** The autoregressive property, for every order *)

(** X8.  Whenever [create_masks] returns, for whatever orders, the product of
    its masks is defined and has a nonzero entry [(i, j)] only if
    [input_degree[i] < input_degree[j]]; in particular its diagonal is zero:
    no output depends on its own input. *)
Theorem create_masks_autoregressive input_dim hidden_dims input_order hidden_order
    rs masks rs' :
  create_masks input_dim hidden_dims input_order hidden_order rs = Ok (masks, rs') →
  ∃ degrees input_degrees product,
    create_degrees input_dim hidden_dims input_order hidden_order rs
    = Ok (degrees, rs')
    ∧ head degrees = Some input_degrees
    ∧ connectivity masks = Ok product
    ∧ shape product = (length input_degrees, length input_degrees)
    ∧ (∀ i j v, entry product i j = Some v → v ≠ 0 →
         ∃ di dj, input_degrees !! i = Some di ∧ input_degrees !! j = Some dj
                  ∧ di < dj)
    ∧ (∀ i v, entry product i i = Some v → v = 0).
Proof.
  intros (degrees & Hcd & Hms)%create_masks_Ok.
  destruct degrees as [|d ds]; [done|].
  destruct (connectivity_of_degrees d ds masks Hms) as (r & Hr & Hconn & Hshape).
  exists (d :: ds), d, r. split_and!; [done..| |].
  - intros i j v Hv Hnz. destruct (Hconn i j v Hv Hnz) as (x & y & ? & ? & ?). eauto.
  - intros i v Hv. destruct (decide (v = 0)) as [|Hnz]; [done|].
    destruct (Hconn i i v Hv Hnz) as (x & y & Hx & Hy & Hlt).
    rewrite Hx in Hy. injection Hy as <-. lia.
Qed.

Lemma create_masks_autoregressive_witness :
  create_masks 2 [1] (OrderName "right-to-left") "left-to-right" sample_rs
  = Ok ([mkTensor 2 1 [[f32.zero]; [f32.one]];
         mkTensor 1 2 [[f32.one; f32.zero]]], sample_rs)
  ∧ ∃ degrees input_degrees product,
      create_degrees 2 [1] (OrderName "right-to-left") "left-to-right" sample_rs
      = Ok (degrees, sample_rs)
      ∧ head degrees = Some input_degrees
      ∧ connectivity [mkTensor 2 1 [[f32.zero]; [f32.one]];
                      mkTensor 1 2 [[f32.one; f32.zero]]] = Ok product
      ∧ shape product = (length input_degrees, length input_degrees)
      ∧ (∀ i j v, entry product i j = Some v → v ≠ 0 →
           ∃ di dj, input_degrees !! i = Some di ∧ input_degrees !! j = Some dj
                    ∧ di < dj)
      ∧ (∀ i v, entry product i i = Some v → v = 0).
Proof.
  split; [reflexivity|].
  apply (create_masks_autoregressive 2 [1] (OrderName "right-to-left")
           "left-to-right" sample_rs _ sample_rs).
  reflexivity.
Defined.

(** ** Tiling: [tf.newaxis], [tf.tile] and [tf.reshape] in [MADE.build] *)

(** Cutting the concatenation of rows of equal length gives the rows back. *)
Lemma chunks_concat {A} c (l : list (list A)) :
  Forall (λ r, length r = c) l →
  (λ i, take c (drop (i * c) (concat l))) <$> seq 0 (length l) = l.
Proof.
  induction 1 as [|r l Hr Hl IH]; [done|].
  cbn [length seq fmap list_fmap concat]. f_equal.
  - change (0 * c)%nat with 0%nat. rewrite drop_0. by apply take_app_length'.
  - rewrite <- IH at 2. rewrite <- fmap_S_seq, <- list_fmap_compose.
    apply list_fmap_ext. intros _ i _. simpl.
    by rewrite (drop_app_add' r (concat l) c (i * c)).
Qed.

Lemma concat_concat_fmap {A} (l : list (list (list A))) :
  concat (concat l) = concat ((λ x : list (list A), concat x) <$> l).
Proof. induction l as [|x l IH]; simpl; [done|]. rewrite concat_app. by f_equal. Qed.

Lemma lookup_bind_replicate {A} n (l : list A) i :
  (i < length l * n)%nat → (l ≫= replicate n) !! i = l !! (i `div` n)%nat.
Proof.
  revert i. induction l as [|x l IH]; intros i Hi; [simpl in Hi; lia|].
  rewrite bind_cons. destruct (decide (i < n)%nat) as [Hlt|Hge].
  - rewrite lookup_app_l by (by rewrite length_replicate).
    rewrite Nat.div_small by done. by apply lookup_replicate_2.
  - rewrite lookup_app_r by (rewrite length_replicate; lia).
    rewrite length_replicate. simpl in Hi. rewrite IH by lia.
    replace (i `div` n)%nat with (S ((i - n) `div` n)); [done|].
    replace i with ((i - n) + 1 * n)%nat at 2 by lia.
    rewrite Nat.div_add by lia. lia.
Qed.

Lemma length_bind_replicate {A} n (l : list A) :
  length (l ≫= replicate n) = (length l * n)%nat.
Proof.
  induction l as [|x l IH]; [done|].
  rewrite bind_cons, length_app, length_replicate, IH. simpl. lia.
Qed.

Lemma Forall_bind_replicate {A} (P : A → Prop) n (l : list A) :
  Forall P l → Forall P (l ≫= replicate n).
Proof.
  induction 1 as [|x l Hx Hl IH]; [done|].
  rewrite bind_cons. apply Forall_app. split; [|done].
  by apply Forall_replicate.
Qed.

Lemma tile_list_1 {A} (l : list A) : tile_list 1 l = l.
Proof. unfold tile_list. simpl. apply app_nil_r. Qed.

Lemma tile_list_singleton {A} n (x : A) : tile_list n [x] = replicate n x.
Proof. unfold tile_list. induction n as [|n IH]; simpl; [done|]. by f_equal. Qed.

Lemma concat_fmap_replicate {A} n (l : list A) :
  concat ((λ r, replicate n r) <$> l) = l ≫= replicate n.
Proof.
  induction l as [|x l IH]; [done|].
  rewrite fmap_cons, bind_cons. cbn [concat]. by rewrite IH.
Qed.

(** Lines 98-100 on a well-formed mask: every row [channels] times in a row. *)
Lemma tile_input_mask_rows mask channels :
  wf_tensor mask →
  made.tile_input_mask mask channels
  = Ok (mkTensor (dim0 mask * channels) (dim1 mask)
          (rows mask ≫= replicate channels)).
Proof.
  intros [Hlen Hrows]. unfold made.tile_input_mask, tf_tile, newaxis_1.
  cbn [extent0 extent1 extent2 cells].
  change (1 <? 0) with false.
  assert ((Z.of_nat channels <? 0) = false) as -> by (apply Z.ltb_ge; lia).
  cbn [orb]. change (Z.to_nat 1) with 1%nat.
  rewrite Nat2Z.id, tile_list_1, <- list_fmap_compose.
  unfold tf_reshape. cbn [extent0 extent1 extent2 cells].
  assert ((Z.of_nat (dim0 mask * 1) * Z.of_nat channels <? 0) = false) as -> by (apply Z.ltb_ge; lia).
  assert ((Z.of_nat (dim1 mask * 1) <? 0) = false) as -> by (apply Z.ltb_ge; lia).
  cbn [orb].
  assert (Z.to_nat (Z.of_nat (dim0 mask * 1) * Z.of_nat channels)
          = (dim0 mask * channels)%nat) as -> by lia.
  assert (Z.to_nat (Z.of_nat (dim1 mask * 1)) = dim1 mask) as -> by lia.
  rewrite decide_True by lia. f_equal. f_equal.
  rewrite (list_fmap_ext _ (λ r, replicate channels r) (rows mask)).
  2: { intros _ r _. simpl. by rewrite tile_list_1, tile_list_singleton. }
  rewrite concat_fmap_replicate.
  rewrite <- Hlen, <- (length_bind_replicate channels (rows mask)).
  apply chunks_concat.
  by apply Forall_bind_replicate.
Qed.

(** Lines 125-126 on a well-formed mask: every entry [units] times in a row. *)
Lemma tile_output_mask_rows mask units :
  wf_tensor mask → 0 ≤ units →
  made.tile_output_mask mask units
  = Ok (mkTensor (dim0 mask) (dim1 mask * Z.to_nat units)
          ((λ r, r ≫= replicate (Z.to_nat units)) <$> rows mask)).
Proof.
  intros [Hlen Hrows] Hunits. unfold made.tile_output_mask, tf_tile, newaxis_2.
  cbn [extent0 extent1 extent2 cells].
  change (1 <? 0) with false.
  assert ((units <? 0) = false) as -> by (apply Z.ltb_ge; lia).
  cbn [orb]. change (Z.to_nat 1) with 1%nat.
  rewrite tile_list_1, <- list_fmap_compose.
  unfold tf_reshape. cbn [extent0 extent1 extent2 cells].
  assert ((Z.of_nat (dim0 mask * 1) <? 0) = false) as -> by (apply Z.ltb_ge; lia).
  assert ((Z.of_nat (dim1 mask * 1) * units <? 0) = false) as ->
    by (apply Z.ltb_ge; lia).
  cbn [orb].
  assert (Z.to_nat (Z.of_nat (dim0 mask * 1)) = dim0 mask) as -> by lia.
  assert (Z.to_nat (Z.of_nat (dim1 mask * 1) * units)
          = (dim1 mask * Z.to_nat units)%nat) as -> by lia.
  rewrite decide_True by lia. f_equal. f_equal.
  rewrite concat_concat_fmap, <- list_fmap_compose.
  rewrite (list_fmap_ext _ (λ r, r ≫= replicate (Z.to_nat units)) (rows mask)).
  2: { intros _ r _. simpl. rewrite tile_list_1, <- list_fmap_compose.
       rewrite <- concat_fmap_replicate. f_equal. apply list_fmap_ext.
       intros _ x _. simpl. apply tile_list_singleton. }
  rewrite <- Hlen at 1.
  rewrite <- (length_fmap (λ r, r ≫= replicate (Z.to_nat units)) (rows mask)).
  apply chunks_concat. apply Forall_fmap.
  eapply Forall_impl; [exact Hrows|]. intros r <-. simpl.
  apply length_bind_replicate.
Qed.

Lemma fmap_bind_replicate {A B} (f : A → B) n (l : list A) :
  (f <$> l) ≫= replicate n = f <$> (l ≫= replicate n).
Proof.
  induction l as [|x l IH]; [done|].
  rewrite fmap_cons, !bind_cons, fmap_app, fmap_replicate. by f_equal.
Qed.

(** Tiling a comparison mask is comparing the tiled degrees. *)
Lemma tile_input_mask_cast_outer op a b channels :
  made.tile_input_mask (tf.cast_float32 (outer_compare op a b)) channels
  = Ok (tf.cast_float32 (outer_compare op (a ≫= replicate channels) b)).
Proof.
  rewrite tile_input_mask_rows by apply wf_cast_outer.
  unfold tf.cast_float32, tensor_map, outer_compare.
  cbn [dim0 dim1 rows]. rewrite length_bind_replicate.
  by rewrite !fmap_bind_replicate.
Qed.

Lemma tile_output_mask_cast_outer op a b units :
  0 ≤ units →
  made.tile_output_mask (tf.cast_float32 (outer_compare op a b)) units
  = Ok (tf.cast_float32 (outer_compare op a (b ≫= replicate (Z.to_nat units)))).
Proof.
  intros Hunits. rewrite tile_output_mask_rows by (done || apply wf_cast_outer).
  unfold tf.cast_float32, tensor_map, outer_compare.
  cbn [dim0 dim1 rows]. rewrite length_bind_replicate. f_equal. f_equal.
  rewrite <- !list_fmap_compose. apply list_fmap_ext. intros _ x _. simpl.
  by rewrite !fmap_bind_replicate.
Qed.

Lemma tile_output_mask_negative mask units :
  units < 0 →
  made.tile_output_mask mask units
  = Raise (InvalidArgumentError "Expected multiples >= 0").
Proof.
  intros Hneg. unfold made.tile_output_mask, tf_tile.
  by rewrite (proj2 (Z.ltb_lt units 0) Hneg).
Qed.

Lemma length_consecutive_masks d ds : length (consecutive_masks d ds) = length ds.
Proof. revert d. induction ds as [|d' ds IH]; intros d; simpl; [done|]. by rewrite IH. Qed.

(** ** The layers [MADE.build] creates *)

Lemma hidden_layers_seq self masks a n :
  (a + n ≤ length (made.hidden_dims self))%nat → (a + n ≤ length masks)%nat →
  made.hidden_layers self masks (seq a n)
  = if forallb (λ u, 0 <? u) (take n (drop a (made.hidden_dims self)))
    then Ok (zip_with
               (λ u m, made.Dense u m (made.activation self) (made.use_bias self))
               (take n (drop a (made.hidden_dims self))) (take n (drop a masks)))
    else Raise made.invalid_units.
Proof.
  revert a. induction n as [|n IH]; intros a Hhd Hms; [done|].
  cbn [seq made.hidden_layers].
  destruct (lookup_lt_is_Some_2 (made.hidden_dims self) a) as [u Hu]; [lia|].
  destruct (lookup_lt_is_Some_2 masks a) as [m Hm]; [lia|].
  rewrite Hu, Hm, IH by lia.
  rewrite (drop_S _ _ _ Hu), (drop_S _ _ _ Hm). cbn [take forallb zip_with].
  unfold made.dense.
  destruct (Z.leb_spec u 0), (Z.ltb_spec 0 u); try lia; [done|].
  cbn [andb]. by destruct (forallb _ _).
Qed.

(** The network in closed form: with [d0 :: ds] the degrees and the input
    degrees repeated [channels] times on the input side and [units] times on
    the output side, the kernel masks are again consecutive comparison
    masks. *)
Lemma build_of_degrees self len channels rs d0 ds rs' :
  create_degrees (Z.of_nat len) (made.hidden_dims self) (made.input_order self)
    (made.hidden_order self) rs = Ok (d0 :: ds, rs') →
  made.build self (Some len) (Some channels) rs
  = if negb (forallb (λ u, 0 <? u) (made.hidden_dims self))
    then Raise made.invalid_units
    else if made.units self <? 0
    then Raise (InvalidArgumentError "Expected multiples >= 0")
    else if Z.of_nat len * made.units self <=? 0
    then Raise made.invalid_units
    else
      Ok (made.Reshape [Z.of_nat len * Z.of_nat channels]
          :: zip_with
               (λ u m, made.Dense u m (made.activation self) (made.use_bias self))
               (made.hidden_dims self)
               (consecutive_masks (d0 ≫= replicate channels) ds)
          ++ [made.Dense (Z.of_nat len * made.units self)
                (tf.cast_float32
                   (outer_compare Z.ltb
                      (default (d0 ≫= replicate channels) (last ds))
                      (d0 ≫= replicate (Z.to_nat (made.units self)))))
                None (made.use_bias self);
              made.Reshape [Z.of_nat len; made.units self]], rs').
Proof.
  intros Hcd.
  pose proof (create_degrees_head _ _ _ _ _ _ _ Hcd) as (_ & _ & _ & _ & Hlen).
  assert (create_masks (Z.of_nat len) (made.hidden_dims self)
            (made.input_order self) (made.hidden_order self) rs
          = Ok (consecutive_masks d0 ds
                ++ [tf.cast_float32 (outer_compare Z.ltb (default d0 (last ds)) d0)],
                rs')) as Hcm.
  { apply create_masks_Ok. exists (d0 :: ds). split; [done|].
    apply masks_of_degrees_cons. }
  unfold made.build. rewrite Hcm. clear Hcd Hcm.
  destruct self as [units hd io ho act bias].
  cbn [made.units made.hidden_dims made.input_order made.hidden_order
       made.activation made.use_bias] in *.
  destruct ds as [|d1 ds], hd as [|u0 hd]; try done.
  - cbn [consecutive_masks app head last default zip_with forallb negb].
    rewrite tile_input_mask_cast_outer.
    cbn [List.length Nat.sub seq made.hidden_layers].
    destruct (Z.ltb_spec units 0) as [Hneg|Hpos].
    + by rewrite tile_output_mask_negative.
    + rewrite tile_output_mask_cast_outer by done. unfold made.dense.
      by destruct (Z.of_nat len * units <=? 0).
  - cbn [consecutive_masks app head forallb].
    rewrite tile_input_mask_cast_outer. unfold made.dense at 1.
    destruct (Z.leb_spec u0 0), (Z.ltb_spec 0 u0); try lia; [done|].
    cbn [andb fmap result_fmap].
    cbn [List.length Nat.sub]. rewrite Nat.sub_0_r.
    assert (length ds = length hd) as Hlen' by (simpl in Hlen; lia).
    rewrite hidden_layers_seq.
    2: { cbn [made.hidden_dims length]. lia. }
    2: { cbn [length]. rewrite length_app, length_consecutive_masks. simpl. lia. }
    cbn [made.hidden_dims made.activation made.use_bias drop].
    rewrite !drop_0, firstn_all.
    destruct (forallb _ hd); [|done]. cbn [negb].
    rewrite take_app_length' by (by rewrite length_consecutive_masks).
    rewrite app_comm_cons, last_snoc, !default_last_cons.
    destruct (Z.ltb_spec units 0) as [Hneg|Hpos].
    + by rewrite tile_output_mask_negative.
    + rewrite tile_output_mask_cast_outer by done. unfold made.dense.
      by destruct (Z.of_nat len * units <=? 0).
Qed.

(** ** The sizes of the degree vectors *)

Lemma hidden_degrees_loop_lengths input_dim hidden_order hidden_dims degrees rs out rs' :
  hidden_degrees_loop input_dim hidden_order hidden_dims degrees rs = Ok (out, rs') →
  length <$> out = (length <$> degrees) ++ (Z.to_nat <$> hidden_dims).
Proof.
  revert degrees rs. induction hidden_dims as [|units hidden_dims IH];
    intros degrees rs Hloop.
  - simpl in Hloop. injection Hloop as <- <-. by rewrite app_nil_r.
  - cbn [hidden_degrees_loop] in Hloop.
    destruct (String.eqb hidden_order "random").
    + destruct (last degrees) as [prev|]; [|done].
      destruct (np.min prev) as [m|]; [|done].
      destruct (np.random_randint _ _ _ _) as [[h rs1]|] eqn:Hrand; [|done].
      apply random_randint_Ok in Hrand as (_ & _ & Hdraws).
      apply IH in Hloop. rewrite Hloop, fmap_app, <- app_assoc. simpl.
      do 3 f_equal. change h with (h, rs1).1. rewrite <- Hdraws. apply draws_spec.
    + destruct (String.eqb hidden_order "left-to-right"); [|done].
      apply IH in Hloop. rewrite Hloop, fmap_app, <- app_assoc. simpl.
      do 3 f_equal. rewrite length_fmap, length_arange. f_equal. lia.
Qed.

Lemma input_degrees_of_length input_dim input_order rs d rs1 :
  input_degrees_of input_dim input_order rs = Ok (d, rs1) →
  length d = match input_order with
             | OrderName _ => Z.to_nat input_dim
             | OrderArray a => length a
             end.
Proof.
  destruct input_order as [name|a]; simpl.
  - destruct (String.eqb name "right-to-left").
    { intros [= <- <-]. unfold np.flip.
      rewrite length_reverse, length_arange. f_equal. lia. }
    destruct (String.eqb name "random").
    { destruct (np.random_shuffle _ rs) as [d' rs2] eqn:Hsh. intros [= <- <-].
      change d' with (d', rs2).1. rewrite <- Hsh, length_random_shuffle.
      rewrite length_arange. f_equal. lia. }
    intros [= <- <-]. rewrite length_arange. f_equal. lia.
  - destruct (np.all _); [done|]. by intros [= <- <-].
Qed.

Lemma create_degrees_lengths input_dim hidden_dims input_order hidden_order
    rs degrees rs' :
  create_degrees input_dim hidden_dims input_order hidden_order rs
  = Ok (degrees, rs') →
  length <$> degrees
  = match input_order with
    | OrderName _ => Z.to_nat input_dim
    | OrderArray a => length a
    end :: (Z.to_nat <$> hidden_dims).
Proof.
  intros (_ & d & rs1 & Hin & Hloop & _)%create_degrees_Ok.
  apply hidden_degrees_loop_lengths in Hloop. rewrite Hloop. simpl.
  by rewrite (input_degrees_of_length _ _ _ _ _ Hin).
Qed.

(** ** Connectivity between distinct input and output units *)

Lemma chain_connects_to src tgt ds d p :
  dim1 p = length d → connects Z.le src d p →
  ∃ r,
    foldl (λ acc b, acc ≫= λ a, matmul a b) (Ok p)
      (tensor_map f32.to_Z
       <$> consecutive_masks d ds
           ++ [tf.cast_float32 (outer_compare Z.ltb (default d (last ds)) tgt)])
    = Ok r
    ∧ connects Z.lt src tgt r ∧ dim0 r = dim0 p ∧ dim1 r = length tgt.
Proof.
  revert d p. induction ds as [|d' ds IH]; intros d p Hdim Hp.
  - simpl.
    destruct (matmul_connects Z.le (λ x y, (x <? y) = true) Z.lt src d tgt p
                (tensor_map f32.to_Z (tf.cast_float32 (outer_compare Z.ltb d tgt))))
      as (r & Hr & Hconn & Hd0 & Hd1); [done|done|apply mask_connects| |].
    { intros x y z Hxy Hyz%Z.ltb_lt. lia. }
    exists r. by rewrite Hr.
  - cbn [consecutive_masks app fmap list_fmap foldl]. rewrite default_last_cons.
    destruct (matmul_connects Z.le (λ x y, (x <=? y) = true) Z.le src d d' p
                (tensor_map f32.to_Z (tf.cast_float32 (outer_compare Z.leb d d'))))
      as (p' & Hp' & Hconn & Hd0 & Hd1); [done|done|apply mask_connects| |].
    { intros x y z Hxy Hyz%Z.leb_le. lia. }
    cbn [mbind result_bind]. rewrite Hp'.
    destruct (IH d' p') as (r & Hr & Hconn' & Hr0 & Hr1); [done|done|].
    exists r. split_and!; [done|done|congruence|done].
Qed.

Lemma connectivity_of_masks src tgt ds :
  ∃ r,
    connectivity
      (consecutive_masks src ds
       ++ [tf.cast_float32 (outer_compare Z.ltb (default src (last ds)) tgt)])
    = Ok r
    ∧ connects Z.lt src tgt r ∧ shape r = (length src, length tgt).
Proof.
  unfold connectivity. destruct ds as [|d1 ds].
  - simpl. eexists. split_and!; [done| |done].
    intros i j v Hv Hnz.
    destruct (mask_connects Z.ltb src tgt i j v Hv Hnz)
      as (x & y & ? & ? & ?%Z.ltb_lt).
    eauto.
  - cbn [consecutive_masks app fmap list_fmap matmul_chain].
    rewrite default_last_cons.
    destruct (chain_connects_to src tgt ds d1
                (tensor_map f32.to_Z (tf.cast_float32 (outer_compare Z.leb src d1))))
      as (r & Hr & Hconn & Hr0 & Hr1); [done| |].
    { intros i j v Hv Hnz.
      destruct (mask_connects Z.leb src d1 i j v Hv Hnz)
        as (x & y & ? & ? & ?%Z.leb_le).
      eauto. }
    exists r. split_and!; [done|done|]. unfold shape. by rewrite Hr0, Hr1.
Qed.

Lemma kernel_masks_dense_layers (f : Z → Tensor spec_float → made.layer) us ms :
  (∀ u m, ∃ a b, f u m = made.Dense u m a b) →
  length us = length ms →
  made.kernel_masks (zip_with f us ms) = ms.
Proof.
  intros Hf. revert ms. induction us as [|u us IH]; intros [|m ms] Hlen; try done.
  unfold made.kernel_masks in *. cbn [zip_with omap list_omap].
  destruct (Hf u m) as (a & b & ->). rewrite IH by (simpl in Hlen; lia). done.
Qed.

Lemma shapes_of_masks src tgt ds :
  shape <$> (consecutive_masks src ds
             ++ [tf.cast_float32 (outer_compare Z.ltb (default src (last ds)) tgt)])
  = zip (length src :: (length <$> ds)) ((length <$> ds) ++ [length tgt]).
Proof.
  revert src. induction ds as [|d ds IH]; intros src; [done|].
  cbn [consecutive_masks app fmap list_fmap zip zip_with].
  rewrite default_last_cons. f_equal. apply IH.
Qed.

(** X9.  Whenever [create_masks] returns, the shapes of its masks are fixed
    by the arguments alone: with [n] inputs (the length of an explicit order,
    else [input_dim]) and hidden sizes [h1 .. hL] they are
    [(n, h1), (h1, h2), ..., (hL, n)], a negative size counting as 0. *)
Theorem create_masks_shapes_of_arguments input_dim hidden_dims input_order
    hidden_order rs masks rs' :
  create_masks input_dim hidden_dims input_order hidden_order rs = Ok (masks, rs') →
  let inputs := match input_order with
                | OrderName _ => Z.to_nat input_dim
                | OrderArray a => length a
                end in
  shape <$> masks
  = zip (inputs :: (Z.to_nat <$> hidden_dims))
        ((Z.to_nat <$> hidden_dims) ++ [inputs]).
Proof.
  intros (degrees & Hcd & Hms)%create_masks_Ok inputs.
  apply create_degrees_lengths in Hcd.
  destruct degrees as [|d ds]; [done|].
  rewrite masks_of_degrees_cons in Hms. injection Hms as <-.
  rewrite shapes_of_masks.
  assert (length d = inputs ∧ length <$> ds = Z.to_nat <$> hidden_dims)
    as [-> ->] by (by injection Hcd).
  done.
Qed.

Lemma create_masks_shapes_of_arguments_witness :
  ∃ masks,
    create_masks 3 [4; 2] (OrderName "right-to-left") "left-to-right" sample_rs
    = Ok (masks, sample_rs)
    ∧ shape <$> masks = [(3, 4); (4, 2); (2, 3)]%nat.
Proof.
  eexists. split; [reflexivity|].
  apply (create_masks_shapes_of_arguments 3 [4; 2] (OrderName "right-to-left")
           "left-to-right" sample_rs _ sample_rs).
  reflexivity.
Defined.

(** X10.  The input-side tiling of [MADE.build] (lines 98-100) turns a
    well-formed mask of shape [(r, c)] into one of shape [(r * channels, c)]
    whose row [i] is row [i // channels] of the mask. *)
Theorem tile_input_mask_entries mask channels :
  wf_tensor mask →
  ∃ tiled,
    made.tile_input_mask mask channels = Ok tiled
    ∧ wf_tensor tiled
    ∧ shape tiled = ((dim0 mask * channels)%nat, dim1 mask)
    ∧ ∀ i j, (i < dim0 mask * channels)%nat →
        entry tiled i j = entry mask (i `div` channels)%nat j.
Proof.
  intros Hwf. rewrite tile_input_mask_rows by done. destruct Hwf as [Hlen Hrows].
  eexists. split; [done|]. split_and!; [|done|].
  - split; cbn [rows dim0 dim1].
    + by rewrite length_bind_replicate, Hlen.
    + by apply Forall_bind_replicate.
  - intros i j Hi. unfold entry. cbn [rows].
    by rewrite lookup_bind_replicate by (by rewrite Hlen).
Qed.

Lemma tile_input_mask_entries_witness :
  let mask := mkTensor 2 2 [[f32.zero; f32.one]; [f32.one; f32.one]] in
  wf_tensor mask
  ∧ ∃ tiled,
      made.tile_input_mask mask 2 = Ok tiled
      ∧ wf_tensor tiled
      ∧ shape tiled = ((dim0 mask * 2)%nat, dim1 mask)
      ∧ ∀ i j, (i < dim0 mask * 2)%nat →
          entry tiled i j = entry mask (i `div` 2)%nat j.
Proof.
  intros mask.
  assert (wf_tensor mask) as Hwf by (by repeat constructor).
  split; [exact Hwf|].
  exact (tile_input_mask_entries mask 2 Hwf).
Defined.

(** X11.  The output-side tiling of [MADE.build] (lines 125-126) raises
    [InvalidArgumentError] for negative [units]; otherwise it turns a
    well-formed mask of shape [(r, c)] into one of shape [(r, c * units)]
    whose column [j] is column [j // units] of the mask. *)
Theorem tile_output_mask_entries mask units :
  wf_tensor mask →
  (units < 0 →
   ∃ msg, made.tile_output_mask mask units = Raise (InvalidArgumentError msg))
  ∧ (0 ≤ units →
     ∃ tiled,
       made.tile_output_mask mask units = Ok tiled
       ∧ wf_tensor tiled
       ∧ shape tiled = (dim0 mask, (dim1 mask * Z.to_nat units)%nat)
       ∧ ∀ i j, (j < dim1 mask * Z.to_nat units)%nat →
           entry tiled i j = entry mask i (j `div` Z.to_nat units)%nat).
Proof.
  intros Hwf. split; intros Hunits.
  { rewrite tile_output_mask_negative by done. eauto. }
  rewrite tile_output_mask_rows by done. destruct Hwf as [Hlen Hrows].
  eexists. split; [done|]. split_and!; [|done|].
  - split; cbn [rows dim0 dim1].
    + by rewrite length_fmap.
    + apply Forall_fmap. eapply Forall_impl; [exact Hrows|]. intros r <-. simpl.
      apply length_bind_replicate.
  - intros i j Hj. unfold entry. cbn [rows]. rewrite list_lookup_fmap.
    destruct (rows mask !! i) as [r|] eqn:Hr; [|done]. simpl.
    apply lookup_bind_replicate.
    by rewrite (Forall_lookup_1 (λ r, length r = dim1 mask) (rows mask) i r Hrows Hr).
Qed.

Lemma tile_output_mask_entries_witness :
  let mask := mkTensor 2 2 [[f32.zero; f32.one]; [f32.one; f32.one]] in
  wf_tensor mask
  ∧ (3 < 0 →
     ∃ msg, made.tile_output_mask mask 3 = Raise (InvalidArgumentError msg))
  ∧ (0 ≤ 3 →
     ∃ tiled,
       made.tile_output_mask mask 3 = Ok tiled
       ∧ wf_tensor tiled
       ∧ shape tiled = (dim0 mask, (dim1 mask * Z.to_nat 3)%nat)
       ∧ ∀ i j, (j < dim1 mask * Z.to_nat 3)%nat →
           entry tiled i j = entry mask i (j `div` Z.to_nat 3)%nat).
Proof.
  intros mask.
  assert (wf_tensor mask) as Hwf by (by repeat constructor).
  split; [exact Hwf|].
  exact (tile_output_mask_entries mask 3 Hwf).
Defined.

(** ** [make_masked_initializer] *)

(** Multiplying by a 0/1 mask of the same shape: zero where the mask is zero
    and the weight finite, the flushed weight where the mask is one, and a
    second multiplication changes nothing. *)
Lemma multiply_mask_projection mask x :
  wf_tensor mask → is_mask mask →
  wf_tensor x → float32_tensor x → shape x = shape mask →
  ∃ y,
    tf.multiply mask x = Ok y
    ∧ wf_tensor y ∧ shape y = shape mask
    ∧ (∀ i j v, entry mask i j = Some f32.zero → entry x i j = Some v →
         f32.is_finite v = true →
         ∃ w, entry y i j = Some w ∧ f32.is_zero w = true)
    ∧ (∀ i j v, entry mask i j = Some f32.one → entry x i j = Some v →
         entry y i j = Some (f32.flush v))
    ∧ tf.multiply mask y = Ok y.
Proof.
  intros Hwfm Hmask Hwfx Hvalid Hshape.
  rewrite (multiply_same_shape mask x) by done.
  pose proof Hwfm as [Hm0 Hm1]. pose proof Hwfx as [Hx0 Hx1].
  injection Hshape as Hs0 Hs1.
  set (y := mkTensor _ _ _).
  assert (wf_tensor y) as Hwfy.
  { split; simpl.
    - rewrite length_zip_with. lia.
    - apply Forall_length_zip_with; [done|]. by rewrite <- Hs1. }
  exists y. split_and!; [done|done|done| | |].
  - intros i j v Hmij Hxij Hfin. exists (f32.mul f32.zero v). split.
    + unfold y. by rewrite entry_zip_with, Hmij, Hxij.
    + by apply mul_zero_l_finite.
  - intros i j v Hmij Hxij. unfold y. rewrite entry_zip_with, Hmij, Hxij. simpl.
    f_equal. apply mul_one_l.
    unfold entry in Hxij.
    destruct (rows x !! i) as [xs|] eqn:Hxs; [|done]. simpl in Hxij.
    apply (Forall_lookup_1 (λ v, f32.valid v = true) xs j v); [|done].
    apply (Forall_lookup_1 _ (rows x) i xs Hvalid Hxs).
  - rewrite (multiply_same_shape mask y) by done.
    unfold y. simpl. f_equal. f_equal.
    apply (zip_with_idemp _ (Forall (λ v, v = f32.zero ∨ v = f32.one))
             (Forall (λ v, f32.valid v = true))); [|done..].
    intros ms xs Hms Hxs.
    apply (zip_with_idemp _ (λ v, v = f32.zero ∨ v = f32.one)
             (λ v, f32.valid v = true)); [|done..].
    apply mul_mask_value_idemp.
Qed.

(** X12.  When the wrapped initializer gives a float32 matrix of the mask's
    shape, the masked initializer returns a kernel of that shape which is
    zero where the mask is zero (and the initial weight finite), is the
    initial weight where the mask is one, a subnormal weight being flushed to
    zero by the multiplication, and already satisfies the masked constraint
    made from the same mask: the constraint leaves it unchanged. *)
Theorem masked_initializer_satisfies_constraint initializer mask shp dtype :
  wf_tensor mask → is_mask mask →
  wf_tensor (initializer shp dtype) → float32_tensor (initializer shp dtype) →
  shape (initializer shp dtype) = shape mask →
  ∃ kernel,
    make_masked_initializer initializer mask shp dtype = Ok kernel
    ∧ shape kernel = shape mask
    ∧ (∀ i j v, entry mask i j = Some f32.zero →
         entry (initializer shp dtype) i j = Some v → f32.is_finite v = true →
         ∃ w, entry kernel i j = Some w ∧ f32.is_zero w = true)
    ∧ (∀ i j v, entry mask i j = Some f32.one →
         entry (initializer shp dtype) i j = Some v →
         entry kernel i j = Some (f32.flush v)
         ∧ (f32.is_subnormal v = false → entry kernel i j = Some v))
    ∧ make_masked_constraint mask kernel = Ok kernel.
Proof.
  intros Hwfm Hmask Hwfx Hvalid Hshape.
  destruct (multiply_mask_projection mask (initializer shp dtype))
    as (y & Hy & _ & Hsh & Hzero & Hone & Hfix); [done..|].
  exists y. split_and!; [done..| |done].
  intros i j v Hmij Hxij. rewrite (Hone i j v Hmij Hxij). split; [done|].
  intros Hsub. f_equal. destruct v as [s|s| |s m e]; try done.
  unfold f32.flush. by rewrite Hsub.
Qed.

Lemma masked_initializer_satisfies_constraint_witness :
  let mask := mkTensor 2 2 [[f32.zero; f32.one]; [f32.one; f32.zero]] in
  let initializer := λ (_ : nat * nat) (_ : option string),
    mkTensor 2 2 [[S754_finite true 12582912 (-20); S754_finite false 1 (-149)];
                  [S754_infinity false; S754_finite false 10485760 (-22)]] in
  let shp := (2, 2)%nat in
  wf_tensor mask ∧ is_mask mask
  ∧ wf_tensor (initializer shp None) ∧ float32_tensor (initializer shp None)
  ∧ shape (initializer shp None) = shape mask
  ∧ ∃ kernel,
      make_masked_initializer initializer mask shp None = Ok kernel
      ∧ shape kernel = shape mask
      ∧ (∀ i j v, entry mask i j = Some f32.zero →
           entry (initializer shp None) i j = Some v → f32.is_finite v = true →
           ∃ w, entry kernel i j = Some w ∧ f32.is_zero w = true)
      ∧ (∀ i j v, entry mask i j = Some f32.one →
           entry (initializer shp None) i j = Some v →
           entry kernel i j = Some (f32.flush v)
           ∧ (f32.is_subnormal v = false → entry kernel i j = Some v))
      ∧ make_masked_constraint mask kernel = Ok kernel.
Proof.
  intros mask initializer shp.
  assert (wf_tensor mask) as Hwfm by (by repeat constructor).
  assert (is_mask mask) as Hmask by (repeat constructor; auto).
  assert (wf_tensor (initializer shp None)) as Hwfx by (by repeat constructor).
  assert (float32_tensor (initializer shp None)) as Hvalid
    by (by repeat constructor).
  split_and!; [done..|].
  exact (masked_initializer_satisfies_constraint initializer mask shp None
           Hwfm Hmask Hwfx Hvalid eq_refl).
Defined.

Lemma Forall2_dense_layers act bias src ds hd w0 :
  length src = Z.to_nat w0 → length <$> ds = Z.to_nat <$> hd →
  Forall2 (λ layer '(w_in, w_out),
             ∃ mask, layer = made.Dense w_out mask act bias
                     ∧ wf_tensor mask ∧ is_mask mask
                     ∧ shape mask = (Z.to_nat w_in, Z.to_nat w_out))
    (zip_with (λ u m, made.Dense u m act bias) hd (consecutive_masks src ds))
    (zip (w0 :: hd) hd).
Proof.
  revert src ds w0. induction hd as [|u hd IH]; intros src [|d ds] w0 Hsrc Hds;
    try done.
  injection Hds as Hd Hds.
  cbn [consecutive_masks zip_with zip]. constructor.
  - eexists. split_and!; [done|apply wf_cast_outer|apply is_mask_cast_outer|].
    by rewrite shape_cast_outer, Hsrc, Hd.
  - by apply IH.
Qed.

Lemma forallb_positive_sizes (hd : list Z) :
  forallb (λ u, 0 <? u) hd = true ↔ Forall (λ u, 1 ≤ u) hd.
Proof.
  induction hd as [|u hd IH]; [by split; [constructor|]|].
  cbn [forallb]. rewrite andb_true_iff, Forall_cons, IH, Z.ltb_lt. intuition lia.
Qed.

(** X13.  On a valid input (a positive length, positive hidden sizes, valid
    orders) with [units >= 1], [MADE.build] returns the network
    [Reshape; Dense ...; Dense; Reshape]: one hidden [Dense] per entry of
    [hidden_dims], each with [self.activation] and a well-formed 0/1 kernel
    mask of shape [(previous width, its units)], the first width being
    [length * channels]; then a [Dense] with [length * units] units, no
    activation and a mask of shape [(last width, length * units)]; the
    reshapes flatten to [length * channels] and restore [(length, units)]. *)
Theorem build_layer_shapes self len channels rs :
  valid_input (Z.of_nat len) (made.hidden_dims self) (made.input_order self)
    (made.hidden_order self) →
  1 ≤ made.units self →
  let w_first := Z.of_nat len * Z.of_nat channels in
  let w_last := Z.of_nat len * made.units self in
  ∃ hidden mask_out rs',
    made.build self (Some len) (Some channels) rs
    = Ok (made.Reshape [w_first]
          :: hidden
          ++ [made.Dense w_last mask_out None (made.use_bias self);
              made.Reshape [Z.of_nat len; made.units self]], rs')
    ∧ Forall2 (λ layer '(w_in, w_out),
                 ∃ mask,
                   layer = made.Dense w_out mask (made.activation self)
                             (made.use_bias self)
                   ∧ wf_tensor mask ∧ is_mask mask
                   ∧ shape mask = (Z.to_nat w_in, Z.to_nat w_out))
        hidden (zip (w_first :: made.hidden_dims self) (made.hidden_dims self))
    ∧ wf_tensor mask_out ∧ is_mask mask_out
    ∧ shape mask_out
      = (Z.to_nat (default w_first (last (made.hidden_dims self))),
         Z.to_nat w_last).
Proof.
  intros Hvalid Hunits w_first w_last.
  destruct (create_degrees_valid _ _ _ _ rs Hvalid)
    as (degrees & rs' & d0 & Hcd & Hhead & Hlen0 & _).
  destruct Hvalid as (Hlen & Hpos & _).
  destruct degrees as [|d ds]; [done|]. injection Hhead as ->.
  rewrite Nat2Z.id in Hlen0.
  pose proof (create_degrees_lengths _ _ _ _ _ _ _ Hcd) as Hlens.
  assert (length <$> ds = Z.to_nat <$> made.hidden_dims self) as Hds
    by (by injection Hlens).
  rewrite (build_of_degrees _ _ _ _ _ _ _ Hcd).
  rewrite (proj2 (forallb_positive_sizes _) Hpos).
  cbn [negb].
  rewrite (proj2 (Z.ltb_ge (made.units self) 0)) by lia.
  rewrite (proj2 (Z.leb_gt (Z.of_nat len * made.units self) 0)) by nia.
  assert (length (d0 ≫= replicate channels) = Z.to_nat w_first) as Hsrc.
  { rewrite length_bind_replicate, Hlen0. unfold w_first. lia. }
  eexists _, _, rs'. split; [done|]. split_and!.
  - by apply Forall2_dense_layers.
  - apply wf_cast_outer.
  - apply is_mask_cast_outer.
  - rewrite shape_cast_outer, length_bind_replicate, Hlen0. f_equal.
    + assert (length <$> last ds = Z.to_nat <$> last (made.hidden_dims self)) as Hl.
      { by rewrite <- !fmap_last, Hds. }
      destruct (last ds), (last (made.hidden_dims self)); try done.
      by injection Hl.
    + unfold w_last. lia.
Qed.

Lemma build_layer_shapes_witness :
  let self := made.mkConfig 2 [3; 4] (OrderName "right-to-left") "left-to-right"
                (Some "relu"%string) true in
  valid_input (Z.of_nat 3) (made.hidden_dims self) (made.input_order self)
    (made.hidden_order self)
  ∧ 1 ≤ made.units self
  ∧ ∃ hidden mask_out rs',
      made.build self (Some 3%nat) (Some 2%nat) sample_rs
      = Ok (made.Reshape [6]
            :: hidden
            ++ [made.Dense 6 mask_out None true; made.Reshape [3; 2]], rs')
      ∧ Forall2 (λ layer '(w_in, w_out),
                   ∃ mask,
                     layer = made.Dense w_out mask (Some "relu"%string) true
                     ∧ wf_tensor mask ∧ is_mask mask
                     ∧ shape mask = (Z.to_nat w_in, Z.to_nat w_out))
          hidden [(6, 3); (3, 4)]
      ∧ wf_tensor mask_out ∧ is_mask mask_out
      ∧ shape mask_out = (Z.to_nat 4, Z.to_nat 6).
Proof.
  intros self.
  assert (valid_input (Z.of_nat 3) (made.hidden_dims self) (made.input_order self)
            (made.hidden_order self)) as Hvalid.
  { split; [simpl; lia|]. split; [repeat constructor; lia|].
    split; [right; right; reflexivity|right; reflexivity]. }
  assert (1 ≤ made.units self) as Hunits by (simpl; lia).
  split; [exact Hvalid|]. split; [exact Hunits|].
  exact (build_layer_shapes self 3 2 sample_rs Hvalid Hunits).
Defined.

Lemma build_Ok_degrees self len channels rs layers rs' :
  made.build self (Some len) (Some channels) rs = Ok (layers, rs') →
  ∃ d0 ds,
    create_degrees (Z.of_nat len) (made.hidden_dims self) (made.input_order self)
      (made.hidden_order self) rs = Ok (d0 :: ds, rs')
    ∧ 0 ≤ made.units self
    ∧ made.kernel_masks layers
      = consecutive_masks (d0 ≫= replicate channels) ds
        ++ [tf.cast_float32
              (outer_compare Z.ltb
                 (default (d0 ≫= replicate channels) (last ds))
                 (d0 ≫= replicate (Z.to_nat (made.units self))))].
Proof.
  intros Hbuild.
  destruct (create_degrees (Z.of_nat len) (made.hidden_dims self)
              (made.input_order self) (made.hidden_order self) rs)
    as [[degrees rs1]|e] eqn:Hcd.
  2: { unfold made.build, create_masks in Hbuild. by rewrite Hcd in Hbuild. }
  pose proof (create_degrees_head _ _ _ _ _ _ _ Hcd) as (_ & _ & _ & _ & Hlen).
  destruct degrees as [|d0 ds]; [done|].
  rewrite (build_of_degrees _ _ _ _ _ _ _ Hcd) in Hbuild.
  destruct (negb _); [done|].
  destruct (Z.ltb_spec (made.units self) 0) as [|Hunits]; [done|].
  destruct (_ <=? 0); [done|].
  injection Hbuild as <- <-. exists d0, ds. split_and!; [done|done|].
  unfold made.kernel_masks. cbn [omap list_omap].
  rewrite omap_app.
  rewrite (kernel_masks_dense_layers _ (made.hidden_dims self)); [done|eauto|].
  rewrite length_consecutive_masks. simpl in Hlen. lia.
Qed.

(** X14.  Whenever [MADE.build] returns, the product of the kernel masks of
    its [Dense] layers is defined and has shape [(n * channels, n * units)],
    where [n] is the number of input degrees: [length] for a named input
    order, the length of the array for an explicit one.  Its entry [(i, j)]
    is nonzero only if the degree of the input position [i // channels] is
    below the degree of the output position [j // units]: no output of a
    position depends on an input of that position or of a later one. *)
Theorem build_autoregressive self len channels rs layers rs' :
  made.build self (Some len) (Some channels) rs = Ok (layers, rs') →
  let n := match made.input_order self with
           | OrderName _ => len
           | OrderArray a => length a
           end in
  ∃ degrees input_degrees product,
    create_degrees (Z.of_nat len) (made.hidden_dims self) (made.input_order self)
      (made.hidden_order self) rs = Ok (degrees, rs')
    ∧ head degrees = Some input_degrees
    ∧ length input_degrees = n
    ∧ connectivity (made.kernel_masks layers) = Ok product
    ∧ shape product
      = ((n * channels)%nat, (n * Z.to_nat (made.units self))%nat)
    ∧ ∀ i j v, entry product i j = Some v → v ≠ 0 →
        ∃ di dj,
          input_degrees !! (i `div` channels)%nat = Some di
          ∧ input_degrees !! (j `div` Z.to_nat (made.units self))%nat = Some dj
          ∧ di < dj.
Proof.
  intros (d0 & ds & Hcd & Hunits & ->)%build_Ok_degrees n.
  destruct (connectivity_of_masks (d0 ≫= replicate channels)
              (d0 ≫= replicate (Z.to_nat (made.units self))) ds)
    as (r & Hr & Hconn & Hshape).
  assert (length d0 = n) as Hn.
  { pose proof (create_degrees_lengths _ _ _ _ _ _ _ Hcd) as Hlens.
    assert (length d0 = match made.input_order self with
                        | OrderName _ => Z.to_nat (Z.of_nat len)
                        | OrderArray a => length a
                        end) as -> by (by injection Hlens).
    unfold n. destruct (made.input_order self); [apply Nat2Z.id|done]. }
  exists (d0 :: ds), d0, r. split_and!; [done|done|done|done| |].
  - by rewrite Hshape, !length_bind_replicate, Hn.
  - intros i j v Hv Hnz. destruct (Hconn i j v Hv Hnz) as (x & y & Hx & Hy & Hlt).
    exists x, y. split_and!; [| |done].
    + rewrite <- Hx. symmetry. apply lookup_bind_replicate.
      rewrite <- length_bind_replicate. by apply lookup_lt_Some in Hx.
    + rewrite <- Hy. symmetry. apply lookup_bind_replicate.
      rewrite <- length_bind_replicate. by apply lookup_lt_Some in Hy.
Qed.

Lemma build_autoregressive_witness :
  let self := made.mkConfig 2 [3] (OrderArray [2]) "left-to-right"
                (Some "relu"%string) true in
  ∃ layers,
    made.build self (Some 3%nat) (Some 2%nat) sample_rs = Ok (layers, sample_rs)
    ∧ ∃ degrees input_degrees product,
        create_degrees (Z.of_nat 3) [3] (OrderArray [2]) "left-to-right"
          sample_rs = Ok (degrees, sample_rs)
        ∧ head degrees = Some input_degrees
        ∧ length input_degrees = 1%nat
        ∧ connectivity (made.kernel_masks layers) = Ok product
        ∧ shape product = ((1 * 2)%nat, (1 * Z.to_nat 2)%nat)
        ∧ ∀ i j v, entry product i j = Some v → v ≠ 0 →
            ∃ di dj,
              input_degrees !! (i `div` 2)%nat = Some di
              ∧ input_degrees !! (j `div` Z.to_nat 2)%nat = Some dj
              ∧ di < dj.
Proof.
  intros self. eexists. split; [reflexivity|].
  apply (build_autoregressive self 3 2 sample_rs _ sample_rs).
  reflexivity.
Defined.



(** ** Explicit orders of the wrong length *)

(** Shapes that do not broadcast compare unequal as a whole. *)
Lemma not_equal_incompatible (a b : list Z) :
  length a ≠ length b → length a ≠ 1%nat → length b ≠ 1%nat →
  np.not_equal a b = [true].
Proof.
  intros Hne Ha Hb. unfold np.not_equal. rewrite decide_False by done.
  destruct a as [|x [|x' a]], b as [|y [|y' b]]; done.
Qed.

(** X16.  An explicit input order whose length differs from [input_dim],
    neither of the two being 1, is rejected with [ValueError] whatever its
    entries and whatever the other arguments. *)
Theorem explicit_order_wrong_length_rejected input_dim hidden_dims a hidden_order rs :
  length a ≠ Z.to_nat input_dim → length a ≠ 1%nat → input_dim ≠ 1 →
  ∃ msg,
    create_degrees input_dim hidden_dims (OrderArray a) hidden_order rs
    = Raise (ValueError msg).
Proof.
  intros Hlen Ha Hdim. unfold create_degrees.
  destruct (in_names hidden_order _); cbn [negb]; [|eauto].
  cbn [input_degrees_of]. rewrite not_equal_incompatible; [simpl; eauto|..].
  - unfold np.sort. rewrite merge_sort_Permutation, length_arange.
    replace (input_dim + 1 - 1) with input_dim by lia. done.
  - unfold np.sort. by rewrite merge_sort_Permutation.
  - rewrite length_arange. lia.
Qed.

Lemma explicit_order_wrong_length_rejected_witness :
  length [1; 2] ≠ Z.to_nat 3 ∧ length [1; 2] ≠ 1%nat ∧ 3 ≠ 1
  ∧ ∃ msg,
      create_degrees 3 [4] (OrderArray [1; 2]) "left-to-right" sample_rs
      = Raise (ValueError msg).
Proof.
  assert (length [1; 2] ≠ Z.to_nat 3) as Hlen by (simpl; lia).
  assert (length [1; 2] ≠ 1%nat) as Ha by (simpl; lia).
  assert (3 ≠ 1) as Hdim by lia.
  split_and!; [done..|].
  exact (explicit_order_wrong_length_rejected 3 [4] [1; 2] "left-to-right"
           sample_rs Hlen Ha Hdim).
Defined.

(** Against a one-element array the comparison broadcasts. *)
Lemma all_not_equal_singleton x (b : list Z) :
  length b ≠ 1%nat →
  np.all (np.not_equal [x] b) = true ↔ x ∉ b.
Proof.
  intros Hb. unfold np.not_equal. rewrite decide_False by done.
  unfold np.all. clear Hb. induction b as [|y b IH].
  - split; [intros _; apply not_elem_of_nil|done].
  - cbn [fmap list_fmap forallb id].
    rewrite andb_true_iff, negb_true_iff, Z.eqb_neq, not_elem_of_cons.
    by rewrite <- IH.
Qed.

(** X17.  A one-element explicit order [[x]] passes the check for every
    [input_dim] other than 1 exactly when [1 <= x <= input_dim], because the
    comparison with [1..input_dim] broadcasts; it is then returned as the
    only input degree, so the first degree vector has length 1 and not
    [input_dim].  Otherwise [ValueError] is raised. *)
Theorem singleton_order_accepted_iff input_dim hidden_dims x rs :
  input_dim ≠ 1 →
  create_degrees input_dim hidden_dims (OrderArray [x]) "left-to-right" rs
  = (if decide (1 ≤ x ≤ input_dim)
     then Ok ([x] :: ((λ units, left_to_right_degree input_dim <$> np.arange 0 units)
                      <$> hidden_dims), rs)
     else Raise (ValueError "invalid input order")).
Proof.
  intros Hdim. unfold create_degrees.
  change (in_names "left-to-right" _) with true. cbn [negb input_degrees_of].
  change (np.sort [x]) with [x].
  pose proof (all_not_equal_singleton x (np.arange 1 (input_dim + 1))) as Hall.
  rewrite length_arange in Hall. specialize (Hall ltac:(lia)).
  unfold np.arange in Hall at 2. rewrite elem_of_seqZ in Hall.
  destruct (np.all _).
  - rewrite decide_False; [done|]. intros Hx. apply (proj1 Hall); [done|lia].
  - rewrite decide_True.
    + by rewrite hidden_degrees_loop_left_to_right.
    + destruct (decide (1 ≤ x ≤ input_dim)) as [|Hn]; [done|].
      exfalso. assert (false = true); [|done]. apply Hall. lia.
Qed.

Lemma singleton_order_accepted_iff_witness :
  3 ≠ 1
  ∧ create_degrees 3 [2] (OrderArray [2]) "left-to-right" sample_rs
    = (if decide (1 ≤ 2 ≤ 3)
       then Ok ([2] :: ((λ units, left_to_right_degree 3 <$> np.arange 0 units)
                        <$> [2]), sample_rs)
       else Raise (ValueError "invalid input order")).
Proof.
  assert (3 ≠ 1) as Hdim by lia.
  split; [exact Hdim|].
  exact (singleton_order_accepted_iff 3 [2] 2 sample_rs Hdim).
Defined.


(** ** The position that comes first in the order *)

(** X18.  Whenever [MADE.build] returns, the output units of a position whose
    degree is the smallest of the input degrees (position 0 for
    ['left-to-right'], the last one for ['right-to-left']) are connected to
    no input at all: their columns of the product of the kernel masks are
    zero, which is what [MADETest] observes as all-zero outputs. *)
Theorem build_first_position_unconnected self len channels rs layers rs' :
  made.build self (Some len) (Some channels) rs = Ok (layers, rs') →
  ∃ degrees input_degrees product,
    create_degrees (Z.of_nat len) (made.hidden_dims self) (made.input_order self)
      (made.hidden_order self) rs = Ok (degrees, rs')
    ∧ head degrees = Some input_degrees
    ∧ connectivity (made.kernel_masks layers) = Ok product
    ∧ ∀ p dp,
        input_degrees !! p = Some dp →
        (∀ d, d ∈ input_degrees → dp ≤ d) →
        ∀ i j v,
          (j `div` Z.to_nat (made.units self))%nat = p →
          entry product i j = Some v → v = 0.
Proof.
  intros (d0 & ds & Hcd & Hunits & ->)%build_Ok_degrees.
  destruct (connectivity_of_masks (d0 ≫= replicate channels)
              (d0 ≫= replicate (Z.to_nat (made.units self))) ds)
    as (r & Hr & Hconn & Hshape).
  exists (d0 :: ds), d0, r. split_and!; [done..|].
  intros p dp Hp Hmin i j v <- Hv.
  destruct (decide (v = 0)) as [|Hnz]; [done|]. exfalso.
  destruct (Hconn i j v Hv Hnz) as (x & y & Hx & Hy & Hlt).
  rewrite lookup_bind_replicate in Hy.
  2: { rewrite <- length_bind_replicate. by apply lookup_lt_Some in Hy. }
  rewrite Hp in Hy. injection Hy as <-.
  assert (x ∈ d0) as Hin.
  { rewrite lookup_bind_replicate in Hx.
    2: { rewrite <- length_bind_replicate. by apply lookup_lt_Some in Hx. }
    by apply list_elem_of_lookup_2 in Hx. }
  specialize (Hmin x Hin). lia.
Qed.

Lemma build_first_position_unconnected_witness :
  let self := made.mkConfig 5 [4] (OrderName "left-to-right") "left-to-right"
                (Some "relu"%string) true in
  ∃ layers,
    made.build self (Some 3%nat) (Some 1%nat) sample_rs = Ok (layers, sample_rs)
    ∧ ∃ degrees input_degrees product,
        create_degrees (Z.of_nat 3) [4] (OrderName "left-to-right") "left-to-right"
          sample_rs = Ok (degrees, sample_rs)
        ∧ head degrees = Some input_degrees
        ∧ connectivity (made.kernel_masks layers) = Ok product
        ∧ ∀ p dp,
            input_degrees !! p = Some dp →
            (∀ d, d ∈ input_degrees → dp ≤ d) →
            ∀ i j v,
              (j `div` Z.to_nat 5)%nat = p →
              entry product i j = Some v → v = 0.
Proof.
  intros self. eexists. split; [reflexivity|].
  apply (build_first_position_unconnected self 3 1 sample_rs _ sample_rs).
  reflexivity.
Defined.
